(** * A shallow embedding of [main.go]: lexer, recursive-descent parser,
      renderer and evaluator of integer arithmetic expressions.

    Conventions of the embedding.
    - A Go [string] is a byte sequence: Rocq's [string].
    - A [rune] is a code point, an integer: [Z].
    - Go's [int] is the 64-bit signed integer of the usual targets; the
      arithmetic of the evaluator is written with its wrap-around.
    - The input stream is the sequence of runes that [bufio.Reader.ReadRune]
      decodes from it.  The reader keeps, besides the unread input, the rune
      that [UnreadRune] may give back: the rune of the immediately preceding
      successful [ReadRune], and nothing after an [UnreadRune] or after a
      [ReadRune] that met the end of the input (Go's [lastRuneSize = -1]).
      Reading the stream fails only at its end ([io.EOF]).
    - [log.Fatal] ends the process: a call returns [Ok] or ends in [Fatal]
      with the message logged; a nil dereference ends it in [Panic].
    - The two range tables of package [unicode] that [IsDigit] and [IsSpace]
      consult above Latin-1 are parameters of the development. *)

From Stdlib Require Import ZArith List String Ascii Bool Lia DecimalString.
From Stdlib Require DecimalPos DecimalZ.
Import ListNotations.
Open Scope string_scope.
Open Scope list_scope.
Open Scope Z_scope.

(** ** Runes and strings *)

Definition rune := Z.

Definition byte (z : Z) : ascii := ascii_of_N (Z.to_N (z mod 256)).

Definition str1 (a : ascii) : string := String a EmptyString.

(** [string(r)]: the UTF-8 encoding of the rune, U+FFFD for an invalid one. *)
Definition string_of_rune (r : rune) : string :=
  if (r <? 0) || (1114111 <? r) || ((55296 <=? r) && (r <=? 57343)) then
    String (byte 239) (String (byte 191) (str1 (byte 189)))
  else if r <? 128 then str1 (byte r)
  else if r <? 2048 then
    String (byte (Z.lor 192 (Z.shiftr r 6)))
      (str1 (byte (Z.lor 128 (Z.land r 63))))
  else if r <? 65536 then
    String (byte (Z.lor 224 (Z.shiftr r 12)))
      (String (byte (Z.lor 128 (Z.land (Z.shiftr r 6) 63)))
         (str1 (byte (Z.lor 128 (Z.land r 63)))))
  else
    String (byte (Z.lor 240 (Z.shiftr r 18)))
      (String (byte (Z.lor 128 (Z.land (Z.shiftr r 12) 63)))
         (String (byte (Z.lor 128 (Z.land (Z.shiftr r 6) 63)))
            (str1 (byte (Z.lor 128 (Z.land r 63)))))).

(** The string of a rune sequence, as repeated [lit + string(r)] builds it. *)
Fixpoint string_of_runes (rs : list rune) : string :=
  match rs with
  | [] => ""
  | r :: rest => (string_of_rune r ++ string_of_runes rest)%string
  end.

(** The runes of an ASCII text, to write inputs down. *)
Fixpoint runes (s : string) : list rune :=
  match s with
  | EmptyString => []
  | String a rest => Z.of_N (N_of_ascii a) :: runes rest
  end.

Fixpoint takeWhile {A} (f : A -> bool) (l : list A) : list A :=
  match l with
  | [] => []
  | x :: rest => if f x then x :: takeWhile f rest else []
  end.

Fixpoint dropWhile {A} (f : A -> bool) (l : list A) : list A :=
  match l with
  | [] => []
  | x :: rest => if f x then dropWhile f rest else l
  end.

(** ** Outcomes of a call *)

Inductive result (A : Type) : Type :=
| Ok (a : A)
| Fatal (msg : string)
| Panic (msg : string).
Arguments Ok {A} a.
Arguments Fatal {A} msg.
Arguments Panic {A} msg.

Definition bind {A B} (c : result A) (k : A -> result B) : result B :=
  match c with
  | Ok a => k a
  | Fatal m => Fatal m
  | Panic m => Panic m
  end.

Declare Scope go_scope.
Delimit Scope go_scope with go.
Notation "x <- c ;; k" := (bind c (fun x => k))
  (at level 61, c at next level, right associativity) : go_scope.
Notation "' p <- c ;; k" := (bind c (fun x => let 'p := x in k))
  (at level 61, p pattern, c at next level, right associativity) : go_scope.
Open Scope go_scope.

(** ** Tokens (lines 13-37) *)

Inductive Token : Type :=
| EOF | ILLEGAL | IDENT | INT | ADD | SUB | MUL | DIV.

Definition Token_eqb (a b : Token) : bool :=
  match a, b with
  | EOF, EOF | ILLEGAL, ILLEGAL | IDENT, IDENT | INT, INT
  | ADD, ADD | SUB, SUB | MUL, MUL | DIV, DIV => true
  | _, _ => false
  end.

Definition tokens (t : Token) : string :=
  match t with
  | EOF => "EOF"
  | ILLEGAL => "ILLEGAL"
  | IDENT => "IDENT"
  | INT => "INT"
  | ADD => "+"
  | SUB => "-"
  | MUL => "*"
  | DIV => "/"
  end.

(** ** Positions, the buffered reader, the lexer state (lines 39-47) *)

Record Position : Type := mkPosition { line : Z; column : Z }.

Record Reader : Type := mkReader {
  buf : list rune;            (* the input not read yet *)
  lastRune : option rune      (* what UnreadRune gives back, if anything *)
}.

Definition ReadRune (rd : Reader) : option rune * Reader :=
  match buf rd with
  | [] => (None, mkReader [] None)                   (* io.EOF *)
  | r :: rest => (Some r, mkReader rest (Some r))
  end.

Definition ErrInvalidUnreadRune : string := "bufio: invalid use of UnreadRune".

Definition UnreadRune (rd : Reader) : option Reader :=
  match lastRune rd with
  | None => None                                     (* ErrInvalidUnreadRune *)
  | Some r => Some (mkReader (r :: buf rd) None)
  end.

Record Lexer : Type := mkLexer { pos : Position; reader : Reader }.

Definition NewLexer (input : list rune) : Lexer :=
  mkLexer (mkPosition 1 0) (mkReader input None).

Definition incColumn (p : Position) : Position :=
  mkPosition (line p) (column p + 1).

Definition resetPosition (p : Position) : Position :=
  mkPosition (line p + 1) 0.

(** lines 90-95 *)
Definition backup (l : Lexer) : result Lexer :=
  match UnreadRune (reader l) with
  | None => Fatal ErrInvalidUnreadRune
  | Some rd => Ok (mkLexer (mkPosition (line (pos l)) (column (pos l) - 1)) rd)
  end.

(** ** [strconv.Atoi], after Go's library: the fast path for short texts,
       [ParseInt (s, 10, 0)] otherwise.  The error is [ErrSyntax] or
       [ErrRange]; with [ErrRange] the value is the nearest bound. *)

Inductive NumError : Type := ErrSyntax | ErrRange.

Definition intSize : Z := 64.
Definition maxInt : Z := 2 ^ (intSize - 1) - 1.
Definition minInt : Z := - 2 ^ (intSize - 1).
Definition maxUint64 : Z := 2 ^ 64 - 1.

(** The value of a mathematical integer in Go's [int]. *)
Definition wrap (z : Z) : Z :=
  (z + 2 ^ (intSize - 1)) mod 2 ^ intSize - 2 ^ (intSize - 1).

Definition Z_of_ascii (a : ascii) : Z := Z.of_N (N_of_ascii a).

Fixpoint ParseUintLoop (s : string) (n : Z) : Z * option NumError :=
  match s with
  | EmptyString => (n, None)
  | String c rest =>
      let c := Z_of_ascii c in
      if (48 <=? c) && (c <=? 57) then
        let d := c - 48 in
        if n >=? maxUint64 / 10 + 1 then (maxUint64, Some ErrRange)
        else
          let n10 := n * 10 in
          let n1 := (n10 + d) mod 2 ^ 64 in
          if (n1 <? n10) || (n1 >? maxUint64) then (maxUint64, Some ErrRange)
          else ParseUintLoop rest n1
      else (0, Some ErrSyntax)
  end.

Definition ParseUint (s : string) : Z * option NumError :=
  match s with
  | EmptyString => (0, Some ErrSyntax)
  | _ => ParseUintLoop s 0
  end.

Definition ParseInt (s : string) : Z * option NumError :=
  match s with
  | EmptyString => (0, Some ErrSyntax)
  | String c0 rest =>
      let neg := Z_of_ascii c0 =? 45 in
      let s1 := if (Z_of_ascii c0 =? 43) || neg then rest else s in
      let (un, err) := ParseUint s1 in
      match err with
      | Some ErrSyntax => (0, Some ErrSyntax)
      | _ =>
          let cutoff := 2 ^ (intSize - 1) in
          if negb neg && (un >=? cutoff) then (cutoff - 1, Some ErrRange)
          else if neg && (un >? cutoff) then (- cutoff, Some ErrRange)
          else (wrap (if neg then - un else un), None)
      end
  end.

Fixpoint AtoiFast (s : string) (n : Z) : option Z :=
  match s with
  | EmptyString => Some n
  | String c rest =>
      let ch := (Z_of_ascii c - 48) mod 256 in
      if ch >? 9 then None else AtoiFast rest (n * 10 + ch)
  end.

Definition Atoi (s : string) : Z * option NumError :=
  let sLen := Z.of_nat (String.length s) in
  if (0 <? sLen) && (sLen <? 19) then
    match s with
    | EmptyString => (0, Some ErrSyntax)
    | String c0 rest =>
        let signed := (Z_of_ascii c0 =? 45) || (Z_of_ascii c0 =? 43) in
        let s1 := if signed then rest else s in
        if signed && (Z.of_nat (String.length s1) <? 1) then (0, Some ErrSyntax)
        else
          match AtoiFast s1 0 with
          | None => (0, Some ErrSyntax)
          | Some n => (if Z_of_ascii c0 =? 45 then - n else n, None)
          end
    end
  else ParseInt s.

(** [strconv.Itoa] *)
Definition Itoa (z : Z) : string := NilZero.string_of_int (Z.to_int z).

(** ** The syntax tree (lines 124-167) *)

Inductive Expression : Type :=
| BinaryExpression (Left : Expression) (Op : Token) (Right : Expression)
    (Position_ : Position)
| IntegerLiteral (Value : Z) (Position_ : Position)
| NilExpression.   (* the nil interface value *)

Definition nilDereference : string :=
  "runtime error: invalid memory address or nil pointer dereference".

Definition Pos (e : Expression) : result Position :=
  match e with
  | BinaryExpression _ _ _ p => Ok p
  | IntegerLiteral _ p => Ok p
  | NilExpression => Panic nilDereference
  end.

(** The [String] methods, lines 145-147 and 165-167. *)
Fixpoint Expression_String (e : Expression) : result string :=
  match e with
  | BinaryExpression l op r _ =>
      sl <- Expression_String l ;;
      sr <- Expression_String r ;;
      Ok ("(" ++ sl ++ " " ++ tokens op ++ " " ++ sr ++ ")")%string
  | IntegerLiteral v _ => Ok (Itoa v)
  | NilExpression => Panic nilDereference
  end.

(** What [fmt.Println(expr)] writes: the [String] of the node; [fmt] prints
    a nil operand as [<nil>] and reports a panic of the method in the text. *)
Definition Println (e : Expression) : string :=
  match e with
  | NilExpression => "<nil>"
  | _ =>
      match Expression_String e with
      | Ok s => s
      | Fatal m | Panic m => ("%!v(PANIC=String method: " ++ m ++ ")")%string
      end
  end.

(** ** The evaluator (lines 215-250): the value and the error of Go's pair. *)

Definition error := string.

Fixpoint evaluateExpression (expr : Expression) : Z * option error :=
  match expr with
  | BinaryExpression l op r _ =>
      let (left, err) := evaluateExpression l in
      match err with
      | Some e => (0, Some e)
      | None =>
          let (right, err) := evaluateExpression r in
          match err with
          | Some e => (0, Some e)
          | None =>
              match op with
              | ADD => (wrap (left + right), None)
              | SUB => (wrap (left - right), None)
              | MUL => (wrap (left * right), None)
              | DIV =>
                  if right =? 0 then (0, Some "division by zero")
                  else (wrap (Z.quot left right), None)
              | _ => (0, Some "unknown operator")
              end
          end
      end
  | IntegerLiteral v _ => (v, None)
  | NilExpression => (0, Some "unknown expression type")
  end.

(** The evaluator again, with the log of its calls: the nodes it is called
    on, in the order of the calls.  [evaluateTraced_result] shows that the
    log changes nothing. *)
Fixpoint evaluateTraced (expr : Expression)
  : list Expression * (Z * option error) :=
  match expr with
  | BinaryExpression l op r _ =>
      let (calls1, res1) := evaluateTraced l in
      let (left, err) := res1 in
      match err with
      | Some e => (expr :: calls1, (0, Some e))
      | None =>
          let (calls2, res2) := evaluateTraced r in
          let (right, err) := res2 in
          let calls := expr :: calls1 ++ calls2 in
          match err with
          | Some e => (calls, (0, Some e))
          | None =>
              match op with
              | ADD => (calls, (wrap (left + right), None))
              | SUB => (calls, (wrap (left - right), None))
              | MUL => (calls, (wrap (left * right), None))
              | DIV =>
                  if right =? 0 then (calls, (0, Some "division by zero"))
                  else (calls, (wrap (Z.quot left right), None))
              | _ => (calls, (0, Some "unknown operator"))
              end
          end
      end
  | IntegerLiteral v _ => ([expr], (v, None))
  | NilExpression => ([expr], (0, Some "unknown expression type"))
  end.

(** ** The parser (lines 169-213).  Its two loops run on fuel: [None] is a
       loop cut short, which [parseExpression_total] excludes for the fuel
       that [parseExpression] gives. *)

Definition bindF {A B} (c : option (result A)) (k : A -> option (result B))
  : option (result B) :=
  match c with
  | None => None
  | Some (Ok a) => k a
  | Some (Fatal m) => Some (Fatal m)
  | Some (Panic m) => Some (Panic m)
  end.

Notation "x <~ c ;; k" := (bindF c (fun x => k))
  (at level 61, c at next level, right associativity) : go_scope.
Notation "' p <~ c ;; k" := (bindF c (fun x => let 'p := x in k))
  (at level 61, p pattern, c at next level, right associativity) : go_scope.


(** Tables to run the model with: [unicode.White_Space] above Latin-1, and
    an excerpt of [unicode.Digit] (Arabic-Indic, extended Arabic-Indic,
    Devanagari and fullwidth digits).  The theorems of section [Program]
    hold for every pair of tables. *)
Definition White_Space_table (r : rune) : bool :=
  (r =? 0x1680) || ((0x2000 <=? r) && (r <=? 0x200a))
  || (r =? 0x2028) || (r =? 0x2029) || (r =? 0x202f)
  || (r =? 0x205f) || (r =? 0x3000).

Definition Digit_table (r : rune) : bool :=
  ((0x660 <=? r) && (r <=? 0x669)) || ((0x6f0 <=? r) && (r <=? 0x6f9))
  || ((0x966 <=? r) && (r <=? 0x96f)) || ((0xff10 <=? r) && (r <=? 0xff19)).

Ltac zbool :=
  repeat match goal with
  | H : (_ && _) = true |- _ => apply andb_true_iff in H; destruct H
  | H : (_ || _) = false |- _ => apply orb_false_iff in H; destruct H
  | H : (_ <=? _) = true |- _ => apply Z.leb_le in H
  | H : (_ <=? _) = false |- _ => apply Z.leb_gt in H
  | H : (_ <? _) = true |- _ => apply Z.ltb_lt in H
  | H : (_ <? _) = false |- _ => apply Z.ltb_ge in H
  | H : (_ =? _) = true |- _ => apply Z.eqb_eq in H
  | H : (_ =? _) = false |- _ => apply Z.eqb_neq in H
  end.

Section Program.

(** [unicode.Digit] and [unicode.White_Space] above Latin-1. *)
Variable isExcludingLatin_Digit : rune -> bool.
Variable isExcludingLatin_White_Space : rune -> bool.

(** No rune is both a decimal digit and white space. *)
Hypothesis Digit_not_White_Space :
  forall r, isExcludingLatin_Digit r = true ->
            isExcludingLatin_White_Space r = false.

Definition IsDigit (r : rune) : bool :=
  if r <=? 255 then (48 <=? r) && (r <=? 57)
  else isExcludingLatin_Digit r.

Definition IsSpace (r : rune) : bool :=
  if (0 <=? r) && (r <=? 255) then
    (r =? 9) || (r =? 10) || (r =? 11) || (r =? 12) || (r =? 13)
    || (r =? 32) || (r =? 133) || (r =? 160)
  else isExcludingLatin_White_Space r.

(** lines 97-115: the loop of [lexInt], by recursion on the unread input;
    [lexIntLoop_ReadRune] below restates one turn with [ReadRune]. *)
Fixpoint lexIntLoop (rs : list rune) (p : Position) (lit : string)
  : result (string * Lexer) :=
  match rs with
  | [] => Ok (lit, mkLexer p (mkReader [] None))
  | r :: rest =>
      let l1 := mkLexer (incColumn p) (mkReader rest (Some r)) in
      if IsDigit r then lexIntLoop rest (pos l1) (lit ++ string_of_rune r)%string
      else l2 <- backup l1 ;; Ok (lit, l2)
  end.

Definition lexInt (l : Lexer) : result (string * Lexer) :=
  lexIntLoop (buf (reader l)) (pos l) "".

(** lines 49-83: the loop of [Lex]. *)
Fixpoint LexLoop (rs : list rune) (p : Position)
  : result (Token * string * Lexer) :=
  match rs with
  | [] => Ok (EOF, "", mkLexer p (mkReader [] None))
  | r :: rest =>
      let l1 := mkLexer (incColumn p) (mkReader rest (Some r)) in
      if r =? 10 then LexLoop rest (resetPosition (pos l1))
      else if r =? 43 then Ok (ADD, "+", l1)
      else if r =? 45 then Ok (SUB, "-", l1)
      else if r =? 42 then Ok (MUL, "*", l1)
      else if r =? 47 then Ok (DIV, "/", l1)
      else if IsSpace r then LexLoop rest (pos l1)
      else if IsDigit r then
        l2 <- backup l1 ;;
        ' (lit, l3) <- lexInt l2 ;;
        Ok (INT, lit, l3)
      else Ok (ILLEGAL, string_of_rune r, l1)
  end.

Definition Lex (l : Lexer) : result (Token * string * Lexer) :=
  LexLoop (buf (reader l)) (pos l).


Definition parsePrimaryExpr (l : Lexer) : result (Expression * Lexer) :=
  ' (tok, lit, l1) <- Lex l ;;
  if Token_eqb tok INT then
    let (value, _) := Atoi lit in
    Ok (IntegerLiteral value (mkPosition (line (pos l1)) (column (pos l1))), l1)
  else Fatal ("Unexpected token: " ++ tokens tok)%string.

Fixpoint parseMulDivLoop (fuel : nat) (left_ : Expression) (l : Lexer)
  : option (result (Expression * Lexer)) :=
  match fuel with
  | O => None
  | S fuel' =>
      ' (tok, _, l1) <~ Some (Lex l) ;;
      if negb (Token_eqb tok MUL) && negb (Token_eqb tok DIV) then
        l2 <~ Some (backup l1) ;;
        Some (Ok (left_, l2))
      else
        ' (right_, l2) <~ Some (parsePrimaryExpr l1) ;;
        p <~ Some (Pos left_) ;;
        parseMulDivLoop fuel' (BinaryExpression left_ tok right_ p) l2
  end.

Definition parseMulDivExpr (fuel : nat) (l : Lexer)
  : option (result (Expression * Lexer)) :=
  ' (left_, l1) <~ Some (parsePrimaryExpr l) ;;
  parseMulDivLoop fuel left_ l1.

Fixpoint parseAddSubLoop (fuel : nat) (left_ : Expression) (l : Lexer)
  : option (result (Expression * Lexer)) :=
  match fuel with
  | O => None
  | S fuel' =>
      ' (tok, _, l1) <~ Some (Lex l) ;;
      if negb (Token_eqb tok ADD) && negb (Token_eqb tok SUB) then
        l2 <~ Some (backup l1) ;;
        Some (Ok (left_, l2))
      else
        ' (right_, l2) <~ parseMulDivExpr fuel' l1 ;;
        p <~ Some (Pos left_) ;;
        parseAddSubLoop fuel' (BinaryExpression left_ tok right_ p) l2
  end.

Definition parseAddSubExpr (fuel : nat) (l : Lexer)
  : option (result (Expression * Lexer)) :=
  ' (left_, l1) <~ parseMulDivExpr fuel l ;;
  parseAddSubLoop fuel left_ l1.

Definition parseExpression (l : Lexer) : option (result (Expression * Lexer)) :=
  parseAddSubExpr (S (List.length (buf (reader l)))) l.

(** ** The program (lines 252-264): what it writes to the standard output and
       how it ends. *)

Inductive Outcome : Type :=
| Exit0 (stdout : list string)
| LogFatal (stdout : list string) (msg : string)
| Panicked (stdout : list string) (msg : string).

Definition main (input : list rune) : option Outcome :=
  match parseExpression (NewLexer input) with
  | None => None
  | Some (Fatal m) => Some (LogFatal [] m)
  | Some (Panic m) => Some (Panicked [] m)
  | Some (Ok (expr, _)) =>
      let out := [Println expr] in
      let (result, err) := evaluateExpression expr in
      match err with
      | Some e => Some (LogFatal out e)
      | None => Some (Exit0 (out ++ [Itoa result]))
      end
  end.


(** ** Vocabulary of the statements *)

(** The runes that start a token of one rune: [Lex] returns on them at once,
    and the token it returns is [singleToken]. *)
Definition isSingle (r : rune) : bool :=
  negb (r =? 10) && negb (IsSpace r) && negb (IsDigit r).

Definition singleToken (r : rune) : Token :=
  if r =? 43 then ADD
  else if r =? 45 then SUB
  else if r =? 42 then MUL
  else if r =? 47 then DIV
  else ILLEGAL.

(** All the runes a reader can still deliver. *)
Definition readerRunes (rd : Reader) : list rune :=
  match lastRune rd with
  | Some r => r :: buf rd
  | None => buf rd
  end.

Definition Lex_post (rs : list rune) (tok : Token) (lit : string) (l1 : Lexer)
  : Prop :=
  (forall x, In x (readerRunes (reader l1)) -> In x rs) /\
  match lastRune (reader l1) with
  | Some r =>
      isSingle r = true /\ tok = singleToken r /\ lit = string_of_rune r /\
      (List.length (buf (reader l1)) < List.length rs)%nat
  | None =>
      (tok = INT /\ (List.length (buf (reader l1)) < List.length rs)%nat) \/
      (tok = EOF /\ buf (reader l1) = [])
  end.

Definition isArith (t : Token) : bool :=
  match t with
  | ADD | SUB | MUL | DIV => true
  | _ => false
  end.

(** The invariant of the trees: no nil node, arithmetic operators only. *)
Fixpoint ast_ok (e : Expression) : bool :=
  match e with
  | BinaryExpression l op r _ => isArith op && ast_ok l && ast_ok r
  | IntegerLiteral _ _ => true
  | NilExpression => false
  end.

(** The reader stands before the rune [r], with nothing to unread. *)
Definition stoppedAt (l : Lexer) (r : rune) : Prop :=
  lastRune (reader l) = None /\
  isSingle r = true /\
  exists rest, buf (reader l) = r :: rest.

(** The two messages the parser can die with. *)
Definition fatalMsg (m : string) : Prop :=
  m = ErrInvalidUnreadRune \/
  exists tok, tok <> INT /\ m = ("Unexpected token: " ++ tokens tok)%string.

Definition primaryPost (l : Lexer) (res : result (Expression * Lexer)) : Prop :=
  match res with
  | Ok (e, l1) =>
      exists lit, Lex l = Ok (INT, lit, l1) /\
        e = IntegerLiteral (fst (Atoi lit)) (pos l1) /\
        lastRune (reader l1) = None /\
        (List.length (buf (reader l1)) < List.length (buf (reader l)))%nat /\
        (forall x, In x (buf (reader l1)) -> In x (buf (reader l)))
  | Fatal m => exists tok, tok <> INT /\
        m = ("Unexpected token: " ++ tokens tok)%string
  | Panic _ => False
  end.

Definition mulDivPost (l : Lexer) (res : option (result (Expression * Lexer)))
  : Prop :=
  match res with
  | None => False
  | Some (Panic _) => False
  | Some (Fatal m) => fatalMsg m
  | Some (Ok (e, l2)) =>
      ast_ok e = true /\
      (exists r, stoppedAt l2 r /\
                 singleToken r <> MUL /\ singleToken r <> DIV) /\
      (List.length (buf (reader l2)) <= List.length (buf (reader l)))%nat /\
      (forall x, In x (buf (reader l2)) -> In x (buf (reader l)))
  end.

Definition addSubPost (l : Lexer) (res : option (result (Expression * Lexer)))
  : Prop :=
  match res with
  | None => False
  | Some (Panic _) => False
  | Some (Fatal m) => fatalMsg m
  | Some (Ok (e, l2)) =>
      ast_ok e = true /\
      (exists r, stoppedAt l2 r /\ singleToken r = ILLEGAL) /\
      (List.length (buf (reader l2)) <= List.length (buf (reader l)))%nat /\
      (forall x, In x (buf (reader l2)) -> In x (buf (reader l)))
  end.

(** A rune that [Lex] accepts: white space, a digit or an operator. *)
Definition legal (r : rune) : bool :=
  (r =? 10) || IsSpace r || IsDigit r
  || (r =? 43) || (r =? 45) || (r =? 42) || (r =? 47).

Fixpoint isDigits (s : string) : bool :=
  match s with
  | EmptyString => true
  | String c rest =>
      (48 <=? Z_of_ascii c) && (Z_of_ascii c <=? 57) && isDigits rest
  end.

(** The number a text of digits denotes, continuing from [acc]. *)
Fixpoint decimal (s : string) (acc : Z) : Z :=
  match s with
  | EmptyString => acc
  | String c rest => decimal rest (acc * 10 + (Z_of_ascii c - 48))
  end.

(** The shape of the trees, as an inductive predicate. *)
Inductive ArithTree : Expression -> Prop :=
| ArithTree_leaf (v : Z) (p : Position) : ArithTree (IntegerLiteral v p)
| ArithTree_node (l r : Expression) (op : Token) (p : Position) :
    In op [ADD; SUB; MUL; DIV] -> ArithTree l -> ArithTree r ->
    ArithTree (BinaryExpression l op r p).

(** The token and the literal that the first rune after the white space
    announces. *)
Definition firstToken (rs : list rune) : Token :=
  match dropWhile IsSpace rs with
  | [] => EOF
  | r :: _ => if IsDigit r then INT else singleToken r
  end.

Definition firstLiteral (rs : list rune) : string :=
  match dropWhile IsSpace rs with
  | [] => ""
  | r :: rest =>
      if IsDigit r then string_of_runes (takeWhile IsDigit (r :: rest))
      else string_of_rune r
  end.

(** The position after the runes [rs] are consumed from position [p]. *)
Definition advance (p : Position) (rs : list rune) : Position :=
  fold_left
    (fun q r => if r =? 10 then resetPosition (incColumn q) else incColumn q)
    rs p.

(** A tree without its positions. *)
Definition noPos : Position := mkPosition 0 0.

Fixpoint erase (e : Expression) : Expression :=
  match e with
  | BinaryExpression l op r _ =>
      BinaryExpression (erase l) op (erase r) noPos
  | IntegerLiteral v _ => IntegerLiteral v noPos
  | NilExpression => NilExpression
  end.

(** The texts of the grammar: an operand is a run of digits and the white
    space after it; a tail is a sequence of signs, each with the white space
    after it and what it applies to; a term is an operand and a tail of
    operands under [*] and [/]; a sum is a term and a tail of terms under
    [+] and [-]. *)
Definition Operand : Type := list rune * list rune.

Definition Tail (A : Type) : Type := list (rune * list rune * A).

Definition Term : Type := Operand * Tail Operand.

Definition Sum : Type := Term * Tail Term.

Definition operandText (o : Operand) : list rune := fst o ++ snd o.

Definition tailText {A} (text : A -> list rune) (t : Tail A) : list rune :=
  flat_map (fun '(op, ws, a) => op :: ws ++ text a) t.

Definition termText (t : Term) : list rune :=
  operandText (fst t) ++ tailText operandText (snd t).

Definition sumText (x : Sum) : list rune :=
  termText (fst x) ++ tailText termText (snd x).

Definition operandOk (o : Operand) : bool :=
  negb (Nat.eqb (List.length (fst o)) 0)
  && forallb IsDigit (fst o) && forallb IsSpace (snd o).

Definition tailOk {A} (sign : rune -> bool) (ok : A -> bool) (t : Tail A)
  : bool :=
  forallb (fun '(op, ws, a) => sign op && forallb IsSpace ws && ok a) t.

Definition isMulDiv (r : rune) : bool := (r =? 42) || (r =? 47).

Definition isAddSub (r : rune) : bool := (r =? 43) || (r =? 45).

Definition termOk (t : Term) : bool :=
  operandOk (fst t) && tailOk isMulDiv operandOk (snd t).

Definition sumOk (x : Sum) : bool :=
  termOk (fst x) && tailOk isAddSub termOk (snd x).

(** The trees of the grammar: each tail folds to the left. *)
Definition operandLeaf (o : Operand) : Expression :=
  IntegerLiteral (fst (Atoi (string_of_runes (fst o)))) noPos.

Definition tailTree {A} (tree : A -> Expression) (t : Tail A)
    (first : Expression) : Expression :=
  fold_left
    (fun acc '(op, _, a) =>
       BinaryExpression acc (singleToken op) (tree a) noPos)
    t first.

Definition termTree (t : Term) : Expression :=
  tailTree operandLeaf (snd t) (operandLeaf (fst t)).

Definition sumTree (x : Sum) : Expression :=
  tailTree termTree (snd x) (termTree (fst x)).

(** The unread input starts with a rune that is a token by itself. *)
Definition headSingle (rs : list rune) : Prop :=
  match rs with
  | r :: _ => isSingle r = true
  | [] => False
  end.

(** ... and that token does not continue a term. *)
Definition headEndsTerm (rs : list rune) : Prop :=
  match rs with
  | r :: _ =>
      isSingle r = true /\ singleToken r <> MUL /\ singleToken r <> DIV
  | [] => False
  end.

(** The value of a tree in the integers, without overflow, for the trees
    that divide nowhere and whose literals are values of [int]. *)
Fixpoint exactValue (e : Expression) : Z :=
  match e with
  | BinaryExpression l ADD r _ => exactValue l + exactValue r
  | BinaryExpression l SUB r _ => exactValue l - exactValue r
  | BinaryExpression l MUL r _ => exactValue l * exactValue r
  | BinaryExpression _ _ _ _ => 0
  | IntegerLiteral v _ => v
  | NilExpression => 0
  end.

Fixpoint divisionFree (e : Expression) : bool :=
  match e with
  | BinaryExpression l op r _ =>
      match op with ADD | SUB | MUL => true | _ => false end
      && divisionFree l && divisionFree r
  | IntegerLiteral v _ => (minInt <=? v) && (v <=? maxInt)
  | NilExpression => false
  end.

(** A character that is neither a parenthesis nor a blank, and the texts
    made of such characters. *)
Definition plainChar (c : ascii) : bool :=
  negb (Ascii.eqb c "(") && negb (Ascii.eqb c ")") && negb (Ascii.eqb c " ").

Fixpoint plainText (s : string) : bool :=
  match s with
  | EmptyString => true
  | String c rest => plainChar c && plainText rest
  end.

(** What follows a rendering inside a rendering: nothing, or a text that
    starts with a character that is not plain. *)
Definition afterRendering (t : string) : Prop :=
  match t with
  | EmptyString => True
  | String c _ => plainChar c = false
  end.

(** The position of the leftmost literal of a tree, and the trees in which
    every binary node carries the position of its left child. *)
Fixpoint positionOf (e : Expression) : option Position :=
  match e with
  | BinaryExpression l _ _ _ => positionOf l
  | IntegerLiteral _ p => Some p
  | NilExpression => None
  end.

Fixpoint positionsOk (e : Expression) : Prop :=
  match e with
  | BinaryExpression l _ r p =>
      Pos l = Ok p /\ positionsOk l /\ positionsOk r
  | IntegerLiteral _ _ => True
  | NilExpression => False
  end.

(** ** The lexer *)

(** One turn of each loop, with [ReadRune] as the source has it. *)
Lemma lexIntLoop_ReadRune (l : Lexer) (lit : string) :
  lexIntLoop (buf (reader l)) (pos l) lit =
  match ReadRune (reader l) with
  | (None, rd) => Ok (lit, mkLexer (pos l) rd)
  | (Some r, rd) =>
      let l1 := mkLexer (incColumn (pos l)) rd in
      if IsDigit r
      then lexIntLoop (buf (reader l1)) (pos l1) (lit ++ string_of_rune r)%string
      else l2 <- backup l1 ;; Ok (lit, l2)
  end.
Proof.
  unfold ReadRune. destruct (buf (reader l)); reflexivity.
Qed.

Lemma LexLoop_ReadRune (l : Lexer) :
  Lex l =
  match ReadRune (reader l) with
  | (None, rd) => Ok (EOF, "", mkLexer (pos l) rd)
  | (Some r, rd) =>
      let l1 := mkLexer (incColumn (pos l)) rd in
      if r =? 10 then Lex (mkLexer (resetPosition (pos l1)) rd)
      else if r =? 43 then Ok (ADD, "+", l1)
      else if r =? 45 then Ok (SUB, "-", l1)
      else if r =? 42 then Ok (MUL, "*", l1)
      else if r =? 47 then Ok (DIV, "/", l1)
      else if IsSpace r then Lex l1
      else if IsDigit r then
        l2 <- backup l1 ;;
        ' (lit, l3) <- lexInt l2 ;;
        Ok (INT, lit, l3)
      else Ok (ILLEGAL, string_of_rune r, l1)
  end.
Proof.
  unfold Lex, ReadRune. destruct (buf (reader l)); reflexivity.
Qed.

Lemma string_app_assoc (a b c : string) :
  ((a ++ b) ++ c = a ++ (b ++ c))%string.
Proof.
  induction a as [|x a IH]; simpl; [reflexivity | now rewrite IH].
Qed.

Lemma string_app_nil_r (a : string) : (a ++ "")%string = a.
Proof.
  induction a as [|x a IH]; simpl; [reflexivity | now rewrite IH].
Qed.

(** A digit is none of the runes that [Lex] tests before [IsDigit]. *)
Lemma IsDigit_not_operator (r : rune) :
  IsDigit r = true ->
  (r =? 10) = false /\ (r =? 43) = false /\ (r =? 45) = false /\
  (r =? 42) = false /\ (r =? 47) = false.
Proof.
  unfold IsDigit. intros H.
  destruct (r <=? 255) eqn:Hle; zbool;
    repeat split; apply Z.eqb_neq; lia.
Qed.

Lemma IsDigit_not_IsSpace (r : rune) : IsDigit r = true -> IsSpace r = false.
Proof.
  unfold IsDigit, IsSpace. intros H.
  destruct (r <=? 255) eqn:Hle.
  - zbool. destruct (0 <=? r) eqn:Hnonneg; zbool; [simpl | lia].
    repeat (apply orb_false_iff; split); apply Z.eqb_neq; lia.
  - zbool. rewrite andb_false_r. now apply Digit_not_White_Space.
Qed.

Lemma lexIntLoop_run (ds rest : list rune) (p : Position) (lit : string) :
  forallb IsDigit ds = true ->
  match rest with [] => True | r :: _ => IsDigit r = false end ->
  lexIntLoop (ds ++ rest) p lit =
  Ok ((lit ++ string_of_runes ds)%string,
      mkLexer (mkPosition (line p) (column p + Z.of_nat (List.length ds)))
              (mkReader rest None)).
Proof.
  revert p lit. induction ds as [|d ds IH]; intros p lit Hds Hrest.
  - simpl app. rewrite string_app_nil_r. destruct p as [ln col].
    destruct rest as [|r rest]; simpl.
    + now rewrite Z.add_0_r.
    + rewrite Hrest. unfold backup. simpl. do 3 f_equal. f_equal. lia.
  - simpl in Hds. apply andb_true_iff in Hds as [Hd Hds].
    simpl. rewrite Hd. rewrite IH by assumption.
    rewrite string_app_assoc. simpl line. simpl column.
    do 3 f_equal. f_equal. lia.
Qed.

Lemma lexIntLoop_takeWhile (rs : list rune) (p : Position) (lit : string) :
  lexIntLoop rs p lit =
  Ok ((lit ++ string_of_runes (takeWhile IsDigit rs))%string,
      mkLexer (mkPosition (line p)
                 (column p + Z.of_nat (List.length (takeWhile IsDigit rs))))
              (mkReader (dropWhile IsDigit rs) None)).
Proof.
  revert p lit. induction rs as [|r rs IH]; intros [ln col] lit.
  - simpl. now rewrite string_app_nil_r, Z.add_0_r.
  - simpl. destruct (IsDigit r) eqn:Hd.
    + rewrite IH. rewrite string_app_assoc. simpl line. simpl column.
      simpl string_of_runes.
      replace (col + 1 + Z.of_nat (List.length (takeWhile IsDigit rs)))
        with (col + Z.of_nat (List.length (r :: takeWhile IsDigit rs)))
        by (simpl List.length; lia).
      reflexivity.
    + unfold backup. simpl. rewrite string_app_nil_r.
      replace (col + 1 - 1) with (col + 0) by lia. reflexivity.
Qed.

Lemma dropWhile_length {A} (f : A -> bool) (l : list A) :
  (List.length (dropWhile f l) <= List.length l)%nat.
Proof.
  induction l as [|x l IH]; simpl; [lia |].
  destruct (f x); simpl; lia.
Qed.

Lemma dropWhile_In {A} (f : A -> bool) (l : list A) (x : A) :
  In x (dropWhile f l) -> In x l.
Proof.
  induction l as [|y l IH]; simpl; [tauto |].
  destruct (f y); simpl; tauto.
Qed.

Lemma LexLoop_single (r : rune) (rest : list rune) (p : Position) :
  isSingle r = true ->
  LexLoop (r :: rest) p =
  Ok (singleToken r, string_of_rune r,
      mkLexer (incColumn p) (mkReader rest (Some r))).
Proof.
  unfold isSingle, singleToken. intros H.
  apply andb_true_iff in H as [H H3]. apply andb_true_iff in H as [H1 H2].
  apply negb_true_iff in H1, H2, H3.
  cbn [LexLoop]. rewrite H1.
  destruct (r =? 43) eqn:E1; [apply Z.eqb_eq in E1; now subst |].
  destruct (r =? 45) eqn:E2; [apply Z.eqb_eq in E2; now subst |].
  destruct (r =? 42) eqn:E3; [apply Z.eqb_eq in E3; now subst |].
  destruct (r =? 47) eqn:E4; [apply Z.eqb_eq in E4; now subst |].
  now rewrite H2, H3.
Qed.

Lemma singleToken_cases (r : rune) :
  singleToken r = ADD \/ singleToken r = SUB \/ singleToken r = MUL \/
  singleToken r = DIV \/ singleToken r = ILLEGAL.
Proof.
  unfold singleToken. repeat (destruct (_ =? _); [tauto |]). tauto.
Qed.

Lemma Lex_post_cons (r : rune) (rs : list rune) tok lit l1 :
  Lex_post rs tok lit l1 -> Lex_post (r :: rs) tok lit l1.
Proof.
  unfold Lex_post. intros [Hin H]. split.
  - intros x Hx. right. now apply Hin.
  - destruct (lastRune (reader l1)).
    + destruct H as (A & B & C & D). repeat split; trivial. simpl. lia.
    + destruct H as [[A B] | [A B]]; [left | right]; split; trivial.
      simpl. lia.
Qed.

Lemma IsSpace_not_operator (r : rune) :
  IsSpace r = true ->
  (r =? 43) = false /\ (r =? 45) = false /\
  (r =? 42) = false /\ (r =? 47) = false.
Proof.
  unfold IsSpace. intros Hsp.
  destruct ((0 <=? r) && (r <=? 255)) eqn:Hl.
  - repeat split; apply Z.eqb_neq; intros ->; discriminate Hsp.
  - repeat split; apply Z.eqb_neq; intros ->; discriminate Hl.
Qed.

(** [Lex] always returns: the only [backup] it makes follows a read. *)
Lemma LexLoop_spec (rs : list rune) (p : Position) :
  exists tok lit l1,
    LexLoop rs p = Ok (tok, lit, l1) /\ Lex_post rs tok lit l1.
Proof.
  revert p. induction rs as [|r rs IH]; intros p.
  - exists EOF, "", (mkLexer p (mkReader [] None)). split; [reflexivity |].
    split; [tauto | right; split; reflexivity].
  - destruct (isSingle r) eqn:Hs.
    + exists (singleToken r), (string_of_rune r),
        (mkLexer (incColumn p) (mkReader rs (Some r))).
      split; [now apply LexLoop_single |].
      split; [intros x Hx; exact Hx |]. simpl. repeat split; trivial. lia.
    + cbn [LexLoop].
      destruct (r =? 10) eqn:E0.
      { destruct (IH (resetPosition (incColumn p))) as (tok & lit & l1 & E & P).
        exists tok, lit, l1. split; [exact E | now apply Lex_post_cons]. }
      unfold isSingle in Hs. rewrite E0 in Hs. simpl in Hs.
      destruct (IsSpace r) eqn:Hsp.
      { destruct (IsSpace_not_operator r Hsp) as (N1 & N2 & N3 & N4).
        rewrite N1, N2, N3, N4.
        destruct (IH (incColumn p)) as (tok & lit & l1 & E & P).
        exists tok, lit, l1. split; [exact E | now apply Lex_post_cons]. }
      simpl in Hs. apply negb_false_iff in Hs.
      destruct (IsDigit_not_operator r Hs) as (_ & N1 & N2 & N3 & N4).
      rewrite N1, N2, N3, N4, Hs.
      unfold backup, lexInt.
      cbn [UnreadRune lastRune reader buf pos bind].
      rewrite lexIntLoop_takeWhile. cbn [bind].
      eexists INT, _, _. split; [reflexivity |].
      split.
      * simpl. rewrite Hs. intros x Hx. right. now apply dropWhile_In in Hx.
      * simpl. rewrite Hs. left. split; [reflexivity |].
        pose proof (dropWhile_length IsDigit rs). lia.
Qed.

Lemma Lex_spec (l : Lexer) :
  exists tok lit l1,
    Lex l = Ok (tok, lit, l1) /\ Lex_post (buf (reader l)) tok lit l1.
Proof. apply LexLoop_spec. Qed.

(** ** The parser *)

Lemma ast_ok_Pos (e : Expression) :
  ast_ok e = true -> exists p, Pos e = Ok p.
Proof.
  destruct e; simpl; intros H; [eauto | eauto | discriminate].
Qed.

Lemma Position_eta (p : Position) : mkPosition (line p) (column p) = p.
Proof. now destruct p. Qed.

Lemma parsePrimaryExpr_spec (l : Lexer) : primaryPost l (parsePrimaryExpr l).
Proof.
  unfold parsePrimaryExpr.
  destruct (Lex_spec l) as (tok & lit & l1 & E & Hin & P).
  rewrite E. cbn [bind].
  destruct (Token_eqb tok INT) eqn:Ht.
  - assert (tok = INT) by (now destruct tok). subst tok.
    destruct (Atoi lit) as [value err] eqn:Ha. simpl.
    exists lit. rewrite Position_eta, Ha. simpl.
    destruct (lastRune (reader l1)) as [r|] eqn:Hl.
    + destruct P as (_ & Hs & _). exfalso. revert Hs. unfold singleToken.
      repeat (destruct (_ =? _); try discriminate).
    + destruct P as [[_ Hlen] | [Hd _]]; [| discriminate].
      repeat split; trivial.
      intros x Hx. apply Hin. unfold readerRunes. now rewrite Hl.
  - simpl. exists tok. split; [| reflexivity].
    intros ->. discriminate.
Qed.

Lemma parseMulDivLoop_spec (fuel : nat) :
  forall (left_ : Expression) (l : Lexer),
    ast_ok left_ = true ->
    (List.length (buf (reader l)) < fuel)%nat ->
    mulDivPost l (parseMulDivLoop fuel left_ l).
Proof.
  induction fuel as [|fuel IH]; intros left_ l Hok Hfuel; [lia |].
  cbn [parseMulDivLoop].
  destruct (Lex_spec l) as (tok & lit & l1 & E & Hin & P).
  rewrite E. cbn [bindF].
  destruct (lastRune (reader l1)) as [r|] eqn:Hl.
  - destruct P as (Hs & Htok & _ & Hlen).
    destruct (negb (Token_eqb tok MUL) && negb (Token_eqb tok DIV)) eqn:Hmd.
    + unfold backup, UnreadRune. rewrite Hl. cbn [bindF mulDivPost].
      apply andb_true_iff in Hmd as [M D]. apply negb_true_iff in M, D.
      split; [exact Hok |]. split; [| split].
      * exists r. split.
        -- unfold stoppedAt. simpl. eauto.
        -- subst tok. split; intros Heq; rewrite Heq in *; discriminate.
      * simpl. lia.
      * simpl. intros x Hx. apply Hin. unfold readerRunes. now rewrite Hl.
    + pose proof (parsePrimaryExpr_spec l1) as Hp.
      destruct (parsePrimaryExpr l1) as [[right_ l2] | m | m];
        cbn [bindF primaryPost] in *.
      * destruct Hp as (lit2 & _ & He & _ & Hlen2 & Hin2).
        destruct (ast_ok_Pos _ Hok) as [p Hp]. rewrite Hp. cbn [bindF].
        assert (Hok' : ast_ok (BinaryExpression left_ tok right_ p) = true).
        { simpl. rewrite Hok. subst right_. simpl.
          destruct tok; try discriminate; reflexivity. }
        assert (Hf : (List.length (buf (reader l2)) < fuel)%nat) by lia.
        specialize (IH _ _ Hok' Hf).
        destruct (parseMulDivLoop fuel _ l2) as [[[e l3] | m | m] |];
          cbn [mulDivPost] in *; trivial.
        destruct IH as (A & B & C & D).
        split; [exact A |]. split; [exact B |]. split; [lia |].
        intros x Hx. apply Hin. unfold readerRunes. rewrite Hl. right.
        now apply Hin2, D.
      * right. exact Hp.
      * exact Hp.
  - assert (Hmd : negb (Token_eqb tok MUL) && negb (Token_eqb tok DIV) = true).
    { destruct P as [[-> _] | [-> _]]; reflexivity. }
    rewrite Hmd. unfold backup, UnreadRune. rewrite Hl. cbn [bindF mulDivPost].
    now left.
Qed.

Lemma parseMulDivExpr_spec (fuel : nat) (l : Lexer) :
  (List.length (buf (reader l)) < fuel)%nat ->
  mulDivPost l (parseMulDivExpr fuel l).
Proof.
  intros Hfuel. unfold parseMulDivExpr.
  pose proof (parsePrimaryExpr_spec l) as Hp.
  destruct (parsePrimaryExpr l) as [[left_ l1] | m | m];
    cbn [bindF primaryPost] in *.
  - destruct Hp as (lit & _ & He & _ & Hlen & Hin).
    assert (Hok : ast_ok left_ = true) by now subst left_.
    assert (Hf : (List.length (buf (reader l1)) < fuel)%nat) by lia.
    pose proof (parseMulDivLoop_spec fuel left_ l1 Hok Hf) as H.
    destruct (parseMulDivLoop fuel left_ l1) as [[[e l2] | m | m] |];
      cbn [mulDivPost] in *; trivial.
    destruct H as (A & B & C & D).
    split; [exact A |]. split; [exact B |]. split; [lia |].
    intros x Hx. now apply Hin, D.
  - right. exact Hp.
  - exact Hp.
Qed.

Lemma parseAddSubLoop_spec (fuel : nat) :
  forall (left_ : Expression) (l : Lexer) (r : rune),
    ast_ok left_ = true ->
    stoppedAt l r -> singleToken r <> MUL -> singleToken r <> DIV ->
    (List.length (buf (reader l)) < fuel)%nat ->
    addSubPost l (parseAddSubLoop fuel left_ l).
Proof.
  induction fuel as [|fuel IH]; intros left_ l r Hok Hst HM HD Hfuel; [lia |].
  destruct Hst as (Hlast & Hs & rest & Hbuf).
  cbn [parseAddSubLoop]. unfold Lex. rewrite Hbuf.
  rewrite (LexLoop_single r rest (pos l) Hs). cbn [bindF].
  destruct (negb (Token_eqb (singleToken r) ADD) &&
            negb (Token_eqb (singleToken r) SUB)) eqn:Has.
  - unfold backup, UnreadRune. cbn [reader lastRune buf bindF addSubPost].
    split; [exact Hok |]. split; [| split].
    + exists r. split; [unfold stoppedAt; simpl; eauto |].
      destruct (singleToken_cases r) as [E | [E | [E | [E | E]]]];
        rewrite E in *; try discriminate; congruence.
    + rewrite Hbuf. simpl. lia.
    + rewrite Hbuf. simpl. tauto.
  - set (l1 := mkLexer (incColumn (pos l)) (mkReader rest (Some r))).
    assert (Hf1 : (List.length (buf (reader l1)) < fuel)%nat).
    { rewrite Hbuf in Hfuel. simpl in *. lia. }
    pose proof (parseMulDivExpr_spec fuel l1 Hf1) as Hp.
    destruct (parseMulDivExpr fuel l1) as [[[right_ l2] | m | m] |];
      cbn [bindF mulDivPost] in *; trivial.
    destruct Hp as (Hokr & (r2 & Hst2 & HM2 & HD2) & Hlen2 & Hin2).
    destruct (ast_ok_Pos _ Hok) as [p Hp]. rewrite Hp. cbn [bindF].
    assert (Hok' : ast_ok (BinaryExpression left_ (singleToken r) right_ p)
                   = true).
    { simpl. rewrite Hok, Hokr.
      destruct (singleToken r); try discriminate; reflexivity. }
    assert (Hf2 : (List.length (buf (reader l2)) < fuel)%nat) by lia.
    specialize (IH _ _ _ Hok' Hst2 HM2 HD2 Hf2).
    destruct (parseAddSubLoop fuel _ l2) as [[[e l3] | m | m] |];
      cbn [addSubPost] in *; trivial.
    destruct IH as (A & B & C & D).
    split; [exact A |]. split; [exact B |].
    rewrite Hbuf. simpl in *. split; [lia |].
    intros x Hx. right. now apply Hin2, D.
Qed.

Lemma parseAddSubExpr_spec (fuel : nat) (l : Lexer) :
  (List.length (buf (reader l)) < fuel)%nat ->
  addSubPost l (parseAddSubExpr fuel l).
Proof.
  intros Hfuel. unfold parseAddSubExpr.
  pose proof (parseMulDivExpr_spec fuel l Hfuel) as Hp.
  destruct (parseMulDivExpr fuel l) as [[[left_ l1] | m | m] |];
    cbn [bindF mulDivPost] in *; trivial.
  destruct Hp as (Hok & (r & Hst & HM & HD) & Hlen & Hin).
  assert (Hf : (List.length (buf (reader l1)) < fuel)%nat) by lia.
  pose proof (parseAddSubLoop_spec fuel left_ l1 r Hok Hst HM HD Hf) as H.
  destruct (parseAddSubLoop fuel left_ l1) as [[[e l2] | m | m] |];
    cbn [addSubPost] in *; trivial.
  destruct H as (A & B & C & D).
  split; [exact A |]. split; [exact B |]. split; [lia |].
  intros x Hx. now apply Hin, D.
Qed.

Lemma parseExpression_spec (l : Lexer) : addSubPost l (parseExpression l).
Proof. apply parseAddSubExpr_spec. lia. Qed.

(** X15.  The parser always ends, within the fuel that [parseExpression]
    gives its loops: it returns a tree, or it dies with the error of
    [UnreadRune] or with [Unexpected token:] and the name of a token that
    is not [INT]; it never panics. *)
Theorem parseExpression_total (l : Lexer) :
  (exists e l', parseExpression l = Some (Ok (e, l'))) \/
  (exists m, parseExpression l = Some (Fatal m) /\ fatalMsg m).
Proof.
  pose proof (parseExpression_spec l) as H.
  destruct (parseExpression l) as [[[e l2] | m | m] |];
    cbn [addSubPost] in H; [left; eauto | right; eauto | tauto | tauto].
Qed.

Lemma singleToken_ILLEGAL_not_legal (r : rune) :
  isSingle r = true -> singleToken r = ILLEGAL -> legal r = false.
Proof.
  unfold isSingle, singleToken, legal. intros Hs Ht.
  apply andb_true_iff in Hs as [Hs H3]. apply andb_true_iff in Hs as [H1 H2].
  apply negb_true_iff in H1, H2, H3. rewrite H1, H2, H3.
  destruct (r =? 43); [discriminate |].
  destruct (r =? 45); [discriminate |].
  destruct (r =? 42); [discriminate |].
  destruct (r =? 47); [discriminate | reflexivity].
Qed.

(** The parser returns a tree only when it stopped before a rune that is
    not legal: on an input of legal runes alone it always dies. *)
Theorem parseExpression_legal_input_dies (l : Lexer) :
  forallb legal (buf (reader l)) = true ->
  exists m, parseExpression l = Some (Fatal m) /\ fatalMsg m.
Proof.
  intros Hlegal.
  pose proof (parseExpression_spec l) as H.
  destruct (parseExpression l) as [[[e l2] | m | m] |];
    cbn [addSubPost] in H; [| eauto | tauto | tauto].
  exfalso. destruct H as (_ & (r & (Hl & Hs & rest & Hb) & Hi) & _ & Hin).
  assert (Hr : In r (buf (reader l))) by (apply Hin; rewrite Hb; now left).
  rewrite forallb_forall in Hlegal. apply Hlegal in Hr.
  rewrite (singleToken_ILLEGAL_not_legal r Hs Hi) in Hr. discriminate.
Qed.

(** X14.  On an input made of white space, digits and the four operators
    alone, whatever its form, the program prints nothing and dies, with the
    error of [UnreadRune] or with [Unexpected token:]. *)
Theorem main_legal_input_dies (input : list rune) :
  forallb legal input = true ->
  exists m, main input = Some (LogFatal [] m) /\ fatalMsg m.
Proof.
  intros H. unfold main.
  destruct (parseExpression_legal_input_dies (NewLexer input) H)
    as (m & E & Hm).
  rewrite E. eauto.
Qed.

(** The program always ends: with its two lines, or dead by [log.Fatal]. *)
Theorem main_total (input : list rune) :
  (exists out, main input = Some (Exit0 out)) \/
  (exists out m, main input = Some (LogFatal out m)).
Proof.
  unfold main.
  pose proof (parseExpression_spec (NewLexer input)) as H.
  destruct (parseExpression (NewLexer input)) as [[[e l2] | m | m] |];
    cbn [addSubPost] in H; [| right; eauto | tauto | tauto].
  destruct (evaluateExpression e) as [v [err|]]; [right | left]; eauto.
Qed.

(** ** [Atoi] on texts of decimal digits *)

Lemma decimal_bounds (s : string) :
  forall acc, isDigits s = true -> 0 <= acc ->
    acc * 10 ^ Z.of_nat (String.length s) <= decimal s acc
    < (acc + 1) * 10 ^ Z.of_nat (String.length s).
Proof.
  induction s as [|c s IH]; intros acc Hd Hacc.
  - simpl. lia.
  - simpl in Hd. zbool.
    cbn [decimal String.length]. rewrite Nat2Z.inj_succ, Z.pow_succ_r by lia.
    specialize (IH (acc * 10 + (Z_of_ascii c - 48)) ltac:(assumption)
                  ltac:(lia)).
    assert (0 < 10 ^ Z.of_nat (String.length s)) by (apply Z.pow_pos_nonneg; lia).
    nia.
Qed.

Lemma decimal_ge_acc (s : string) (acc : Z) :
  isDigits s = true -> 0 <= acc -> acc <= decimal s acc.
Proof.
  intros Hd Hacc. pose proof (decimal_bounds s acc Hd Hacc) as [H _].
  assert (0 < 10 ^ Z.of_nat (String.length s)) by (apply Z.pow_pos_nonneg; lia).
  nia.
Qed.

Lemma AtoiFast_digits (s : string) :
  forall n, isDigits s = true -> AtoiFast s n = Some (decimal s n).
Proof.
  induction s as [|c s IH]; intros n Hd; [reflexivity |].
  simpl in Hd. zbool. cbn [AtoiFast decimal].
  rewrite Z.mod_small by lia.
  destruct (Z_of_ascii c - 48 >? 9) eqn:E; [| now apply IH].
  apply Z.gtb_lt in E. lia.
Qed.

Lemma ParseUintLoop_digits (s : string) :
  forall n, isDigits s = true -> 0 <= n <= maxUint64 ->
    ParseUintLoop s n =
    if decimal s n <=? maxUint64 then (decimal s n, None)
    else (maxUint64, Some ErrRange).
Proof.
  assert (Hmax : maxUint64 = 18446744073709551615) by reflexivity.
  assert (Hcut : maxUint64 / 10 + 1 = 1844674407370955162) by reflexivity.
  assert (Hpow : 2 ^ 64 = 18446744073709551616) by reflexivity.
  induction s as [|c s IH]; intros n Hd Hn.
  - simpl. destruct (Z.leb_spec n maxUint64); [reflexivity | lia].
  - simpl in Hd. zbool. cbn [ParseUintLoop decimal].
    assert (Hc : (48 <=? Z_of_ascii c) && (Z_of_ascii c <=? 57) = true).
    { apply andb_true_iff; split; apply Z.leb_le; lia. }
    rewrite Hc. clear Hc. rewrite Hcut, Hpow.
    set (d := Z_of_ascii c - 48) in *.
    pose proof (decimal_ge_acc s (n * 10 + d) ltac:(assumption) ltac:(lia))
      as Hge.
    destruct (n >=? 1844674407370955162) eqn:E1.
    + apply Z.geb_le in E1.
      destruct (Z.leb_spec (decimal s (n * 10 + d)) maxUint64);
        [lia | reflexivity].
    + rewrite Z.geb_leb in E1. zbool.
      destruct (Z.le_gt_cases (n * 10 + d) maxUint64) as [Hfit | Hover].
      * rewrite Z.mod_small by lia.
        destruct (n * 10 + d <? n * 10) eqn:E2; [zbool; lia |].
        destruct (n * 10 + d >? maxUint64) eqn:E3;
          [apply Z.gtb_lt in E3; lia |].
        simpl. apply IH; [assumption | lia].
      * assert (Hm : (n * 10 + d) mod 18446744073709551616
                     = n * 10 + d - 18446744073709551616).
        { symmetry. apply Z.mod_unique with (q := 1); lia. }
        rewrite Hm.
        destruct (n * 10 + d - 18446744073709551616 <? n * 10) eqn:E2;
          [| zbool; lia].
        simpl.
        destruct (Z.leb_spec (decimal s (n * 10 + d)) maxUint64);
          [lia | reflexivity].
Qed.

Lemma wrap_small (z : Z) : minInt <= z <= maxInt -> wrap z = z.
Proof.
  unfold wrap, minInt, maxInt, intSize. intros H.
  change (2 ^ (64 - 1)) with 9223372036854775808 in *.
  change (2 ^ 64) with 18446744073709551616.
  rewrite Z.mod_small by lia. lia.
Qed.

Lemma wrap_range (z : Z) : minInt <= wrap z <= maxInt.
Proof.
  unfold wrap, minInt, maxInt, intSize.
  change (2 ^ (64 - 1)) with 9223372036854775808 in *.
  change (2 ^ 64) with 18446744073709551616.
  pose proof (Z.mod_pos_bound (z + 9223372036854775808) 18446744073709551616
                ltac:(lia)).
  lia.
Qed.

(** On a text of digits [Atoi] returns the number, or the largest [int]
    together with [ErrRange] when the number does not fit. *)
Lemma Atoi_digits (s : string) :
  s <> "" -> isDigits s = true ->
  Atoi s = if decimal s 0 <=? maxInt then (decimal s 0, None)
           else (maxInt, Some ErrRange).
Proof.
  assert (HmaxI : maxInt = 9223372036854775807) by reflexivity.
  assert (Hmax : maxUint64 = 18446744073709551615) by reflexivity.
  intros Hne Hd. destruct s as [|c s]; [congruence |]. clear Hne.
  pose proof Hd as Hd'. simpl in Hd'. zbool.
  assert (Hsign : (Z_of_ascii c =? 45) = false /\ (Z_of_ascii c =? 43) = false)
    by (split; apply Z.eqb_neq; lia).
  destruct Hsign as [N1 N2].
  unfold Atoi.
  destruct ((0 <? Z.of_nat (String.length (String c s))) &&
            (Z.of_nat (String.length (String c s)) <? 19)) eqn:Hfast.
  - rewrite N1, N2. cbn [orb andb]. rewrite AtoiFast_digits by assumption.
    zbool.
    pose proof (decimal_bounds (String c s) 0 Hd ltac:(lia)) as [_ Hup].
    assert (10 ^ Z.of_nat (String.length (String c s)) <= 10 ^ 18)
      by (apply Z.pow_le_mono_r; lia).
    change (10 ^ 18) with 1000000000000000000 in *.
    destruct (Z.leb_spec (decimal (String c s) 0) maxInt); [reflexivity | lia].
  - unfold ParseInt. rewrite N1, N2. cbn [orb negb andb].
    unfold ParseUint. rewrite ParseUintLoop_digits by (trivial; lia).
    pose proof (decimal_ge_acc (String c s) 0 Hd ltac:(lia)) as Hge.
    unfold intSize. change (2 ^ (64 - 1)) with 9223372036854775808.
    destruct (Z.leb_spec (decimal (String c s) 0) maxUint64) as [Hu | Hu].
    + destruct (decimal (String c s) 0 >=? 9223372036854775808) eqn:E.
      * apply Z.geb_le in E.
        destruct (Z.leb_spec (decimal (String c s) 0) maxInt);
          [lia | reflexivity].
      * rewrite Z.geb_leb in E. zbool.
        rewrite wrap_small
          by (rewrite HmaxI; unfold minInt, intSize;
              change (2 ^ (64 - 1)) with 9223372036854775808; lia).
        destruct (Z.leb_spec (decimal (String c s) 0) maxInt);
          [reflexivity | lia].
    + cbv beta iota. rewrite Hmax.
      change (18446744073709551615 >=? 9223372036854775808) with true.
      cbn [negb andb].
      destruct (Z.leb_spec (decimal (String c s) 0) maxInt);
        [lia | reflexivity].
Qed.

(** C5.  With the cursor at a digit, [lexInt] returns as literal the maximal
    run of digits that starts at the cursor (the digits [d :: ds], followed
    by the end of the input or by a rune that is no digit) and leaves the
    reader at the first rune after the run, the column advanced by the
    length of the run; [Lex], entered at the same cursor, unreads the digit
    it peeked, runs [lexInt] and returns that literal as an [INT] token. *)
Theorem lexInt_maximal_digit_run (l : Lexer) (d : rune) (ds rest : list rune) :
  buf (reader l) = (d :: ds) ++ rest ->
  forallb IsDigit (d :: ds) = true ->
  match rest with [] => True | r :: _ => IsDigit r = false end ->
  let l' :=
    mkLexer (mkPosition (line (pos l))
                        (column (pos l) + Z.of_nat (List.length (d :: ds))))
            (mkReader rest None) in
  lexInt l = Ok (string_of_runes (d :: ds), l') /\
  Lex l = Ok (INT, string_of_runes (d :: ds), l').
Proof.
  intros Hbuf Hds Hrest l'. subst l'.
  assert (Hint : forall p,
    lexIntLoop ((d :: ds) ++ rest) p "" =
    Ok (string_of_runes (d :: ds),
        mkLexer (mkPosition (line p)
                   (column p + Z.of_nat (List.length (d :: ds))))
                (mkReader rest None))).
  { intros p. now rewrite lexIntLoop_run. }
  split.
  - unfold lexInt. rewrite Hbuf. apply Hint.
  - unfold Lex. rewrite Hbuf.
    assert (Hd : IsDigit d = true).
    { simpl in Hds. now apply andb_true_iff in Hds as [Hd _]. }
    destruct (IsDigit_not_operator d Hd) as (N1 & N2 & N3 & N4 & N5).
    pose proof (IsDigit_not_IsSpace d Hd) as N6.
    change ((d :: ds) ++ rest) with (d :: (ds ++ rest)).
    cbn [LexLoop]. rewrite N1, N2, N3, N4, N5, N6, Hd.
    unfold backup, lexInt. cbn [UnreadRune lastRune reader buf pos bind].
    change (d :: (ds ++ rest)) with ((d :: ds) ++ rest).
    rewrite Hint. cbn [bind line column incColumn].
    replace (column (pos l) + 1 - 1) with (column (pos l)) by lia.
    reflexivity.
Qed.

(** C10.  [parsePrimaryExpr] never fails on an integer-literal token: when
    [Lex] returns [INT] with the literal [lit], the result is the leaf that
    carries the value of [Atoi lit], the error of [Atoi] being dropped.  For
    a literal of decimal digits that denotes a number above the largest
    [int], [Atoi] does report [ErrRange], and the leaf silently carries the
    largest [int]. *)
Theorem parsePrimaryExpr_discards_Atoi_error (l l1 : Lexer) (lit : string) :
  Lex l = Ok (INT, lit, l1) ->
  parsePrimaryExpr l = Ok (IntegerLiteral (fst (Atoi lit)) (pos l1), l1) /\
  (isDigits lit = true -> maxInt < decimal lit 0 ->
     snd (Atoi lit) = Some ErrRange /\
     parsePrimaryExpr l = Ok (IntegerLiteral maxInt (pos l1), l1)).
Proof.
  intros E.
  assert (Hp : parsePrimaryExpr l
               = Ok (IntegerLiteral (fst (Atoi lit)) (pos l1), l1)).
  { unfold parsePrimaryExpr. rewrite E. cbn [bind Token_eqb].
    destruct (Atoi lit) as [value err]. now rewrite Position_eta. }
  split; [exact Hp |].
  intros Hd Hbig.
  assert (Hne : lit <> "").
  { intros ->. simpl in Hbig. unfold maxInt, intSize in Hbig. simpl in Hbig.
    lia. }
  rewrite Hp, (Atoi_digits lit Hne Hd).
  destruct (Z.leb_spec (decimal lit 0) maxInt); [lia |].
  split; reflexivity.
Qed.

(** ** The evaluator *)

Lemma evaluateTraced_result (e : Expression) :
  snd (evaluateTraced e) = evaluateExpression e.
Proof.
  induction e as [l IHl op r IHr p | v p |]; simpl; try reflexivity.
  destruct (evaluateTraced l) as [calls1 [a erra]]. simpl in IHl.
  rewrite <- IHl. destruct erra; [reflexivity |].
  destruct (evaluateTraced r) as [calls2 [b errb]]. simpl in IHr.
  rewrite <- IHr. destruct errb; [reflexivity |].
  destruct op; try reflexivity. now destruct (b =? 0).
Qed.

Lemma quot_in_range (a b : Z) :
  b <> 0 -> minInt <= a <= maxInt -> minInt <= b <= maxInt ->
  ~ (a = minInt /\ b = -1) ->
  minInt <= Z.quot a b <= maxInt.
Proof.
  unfold minInt, maxInt, intSize.
  change (2 ^ (64 - 1)) with 9223372036854775808.
  intros Hb Ha Hb' Hnot.
  pose proof (Z.quot_rem' a b) as Hqr.
  pose proof (Z.rem_bound_abs a b Hb) as Hr.
  pose proof (Z.rem_sign_mul a b Hb) as Hs.
  assert (Hcases : b = 1 \/ b = -1 \/ 2 <= b \/ b <= -2) by lia.
  destruct Hcases as [-> | [-> | [H2 | H2]]].
  - rewrite Z.quot_1_r. lia.
  - change (-1) with (- (1)). rewrite Z.quot_opp_r, Z.quot_1_r by lia. lia.
  - nia.
  - nia.
Qed.

(** C6.  On a node whose operator is [DIV] and whose operands evaluate to
    [a] and [b]: when [b] is not zero the evaluator returns the quotient
    truncated toward zero, as Go's [int] holds it, which is the quotient
    itself for all operands of type [int] but the one pair that overflows
    (the least [int] divided by -1); when [b] is zero it returns the error
    [division by zero] and no value.  So the node of 7 / 2 evaluates to 3
    and the node of 5 / 0 fails. *)
Theorem evaluate_divide (l r : Expression) (p : Position) (a b : Z) :
  evaluateExpression l = (a, None) ->
  evaluateExpression r = (b, None) ->
  (b <> 0 ->
     evaluateExpression (BinaryExpression l DIV r p)
       = (wrap (Z.quot a b), None) /\
     (minInt <= a <= maxInt -> minInt <= b <= maxInt ->
      ~ (a = minInt /\ b = -1) -> wrap (Z.quot a b) = Z.quot a b)) /\
  (b = 0 ->
     evaluateExpression (BinaryExpression l DIV r p)
       = (0, Some "division by zero")) /\
  (forall p1 p2 p3,
     evaluateExpression
       (BinaryExpression (IntegerLiteral 7 p1) DIV (IntegerLiteral 2 p2) p3)
       = (3, None) /\
     evaluateExpression
       (BinaryExpression (IntegerLiteral 5 p1) DIV (IntegerLiteral 0 p2) p3)
       = (0, Some "division by zero")).
Proof.
  intros Hl Hr. repeat split.
  - simpl. rewrite Hl, Hr.
    destruct (b =? 0) eqn:E; [apply Z.eqb_eq in E; contradiction | reflexivity].
  - intros Ha Hb Hnot. apply wrap_small. now apply quot_in_range.
  - intros ->. simpl. now rewrite Hl, Hr.
Qed.

(** C7.  The evaluator visits a binary node, then its left child, then its
    right child; when the left child fails, the error of the left child is
    the result of the node, whatever the right child is, and the calls made
    are those of the left child alone: the right child is not evaluated. *)
Theorem evaluate_short_circuit (l r : Expression) (op : Token) (p : Position)
    (v : Z) (e : error) :
  evaluateExpression l = (v, Some e) ->
  evaluateExpression (BinaryExpression l op r p) = (0, Some e) /\
  fst (evaluateTraced (BinaryExpression l op r p))
    = BinaryExpression l op r p :: fst (evaluateTraced l) /\
  (forall l' r' op' p',
     snd (evaluateExpression l') = None ->
     fst (evaluateTraced (BinaryExpression l' op' r' p'))
       = BinaryExpression l' op' r' p'
           :: fst (evaluateTraced l') ++ fst (evaluateTraced r')).
Proof.
  intros Hl. split; [| split].
  - simpl. now rewrite Hl.
  - pose proof (evaluateTraced_result l) as Ht. rewrite Hl in Ht.
    simpl. destruct (evaluateTraced l) as [calls1 [a erra]].
    simpl in Ht. injection Ht as -> ->. reflexivity.
  - intros l' r' op' p' Hok.
    pose proof (evaluateTraced_result l') as Ht.
    simpl. destruct (evaluateTraced l') as [calls1 [a erra]].
    simpl in Ht. rewrite <- Ht in Hok. simpl in Hok. subst erra.
    destruct (evaluateTraced r') as [calls2 [b errb]]. simpl.
    destruct errb; [reflexivity |].
    destruct op'; try reflexivity. now destruct (b =? 0).
Qed.

Lemma ast_ok_ArithTree (e : Expression) : ast_ok e = true -> ArithTree e.
Proof.
  induction e as [l IHl op r IHr p | v p |]; simpl; intros H.
  - apply andb_true_iff in H as [H Hr]. apply andb_true_iff in H as [Ho Hl].
    constructor; auto.
    destruct op; try discriminate; simpl; tauto.
  - constructor.
  - discriminate.
Qed.

Lemma ArithTree_evaluate (e : Expression) :
  ArithTree e ->
  snd (evaluateExpression e) = None \/
  snd (evaluateExpression e) = Some "division by zero".
Proof.
  induction 1 as [v p | l r op p Hop Hl IHl Hr IHr]; [now left |].
  simpl.
  destruct (evaluateExpression l) as [a [ea|]]; simpl in *;
    [destruct IHl as [IHl | IHl]; [discriminate | now right] |].
  destruct (evaluateExpression r) as [b [eb|]]; simpl in *;
    [destruct IHr as [IHr | IHr]; [discriminate | now right] |].
  destruct Hop as [<- | [<- | [<- | [<- | []]]]]; try now left.
  destruct (b =? 0); [now right | now left].
Qed.

(** C9.  A tree that the parser returns has integer literals as leaves and
    binary nodes with one of the operators [ADD], [SUB], [MUL], [DIV], and
    nothing else; on such a tree the evaluator returns a value or the error
    [division by zero]: neither [unknown operator] nor
    [unknown expression type]. *)
Theorem parser_trees_are_arithmetic (l l' : Lexer) (e : Expression) :
  parseExpression l = Some (Ok (e, l')) ->
  ArithTree e /\
  snd (evaluateExpression e) <> Some "unknown operator" /\
  snd (evaluateExpression e) <> Some "unknown expression type".
Proof.
  intros E. pose proof (parseExpression_spec l) as H. rewrite E in H.
  destruct H as (Hok & _).
  pose proof (ast_ok_ArithTree e Hok) as Ht.
  split; [exact Ht |].
  destruct (ArithTree_evaluate e Ht) as [-> | ->]; split; discriminate.
Qed.

(** ** The program on the inputs of the specification *)

(** C1, not met by the code.  A loop of the parser that peeks the end of
    the input does not push the token back and return the tree: it calls
    [backup] after a [ReadRune] that returned [io.EOF], [UnreadRune]
    refuses, and [backup] ends the process.  On the input 1+2, with or
    without a final newline, the parser never returns and the program
    prints none of the two lines. *)
Theorem pushback_at_end_of_input_is_fatal :
  (forall fuel left_ p lr,
     parseMulDivLoop (S fuel) left_ (mkLexer p (mkReader [] lr))
       = Some (Fatal ErrInvalidUnreadRune)) /\
  (forall fuel left_ p lr,
     parseAddSubLoop (S fuel) left_ (mkLexer p (mkReader [] lr))
       = Some (Fatal ErrInvalidUnreadRune)) /\
  parseExpression (NewLexer (runes "1+2"))
    = Some (Fatal ErrInvalidUnreadRune) /\
  main (runes "1+2") = Some (LogFatal [] ErrInvalidUnreadRune) /\
  main (runes "1+2" ++ [10]) = Some (LogFatal [] ErrInvalidUnreadRune).
Proof. repeat split. Qed.

(** C2, not met by the code.  On the input 3&4 there is no failure on the
    illegal token: the loops push it back and return, the parser returns
    the leaf 3, and the program prints 3 twice and ends normally. *)
Theorem illegal_rune_after_operand_is_accepted :
  parseExpression (NewLexer (runes "3&4"))
    = Some (Ok (IntegerLiteral 3 (mkPosition 1 1),
                mkLexer (mkPosition 1 1) (mkReader (runes "&4") None))) /\
  main (runes "3&4") = Some (Exit0 ["3"; "3"]).
Proof. split; reflexivity. Qed.

(** C3, not met by the code.  On the inputs 2+3*4 and 2*3+4 the parser dies
    at the end of the input: no tree is returned, nothing is printed, no
    value is computed.  The precedence is the stated one once a rune that
    is not legal stops the parser, the one case in which it returns. *)
Theorem precedence_inputs_die :
  main (runes "2+3*4") = Some (LogFatal [] ErrInvalidUnreadRune) /\
  main (runes "2*3+4") = Some (LogFatal [] ErrInvalidUnreadRune) /\
  main (runes "2+3*4;") = Some (Exit0 ["(2 + (3 * 4))"; "14"]) /\
  main (runes "2*3+4;") = Some (Exit0 ["((2 * 3) + 4)"; "10"]).
Proof. repeat split. Qed.

(** C4, not met by the code.  On the input 1-2-3 the parser dies at the end
    of the input and returns no tree.  Stopped by a rune that is not legal,
    it returns the tree that associates to the left. *)
Theorem subtraction_chain_dies :
  parseExpression (NewLexer (runes "1-2-3"))
    = Some (Fatal ErrInvalidUnreadRune) /\
  main (runes "1-2-3") = Some (LogFatal [] ErrInvalidUnreadRune) /\
  main (runes "1-2-3;") = Some (Exit0 ["((1 - 2) - 3)"; "-4"]).
Proof. repeat split. Qed.

(** C8, not met by the code.  On the inputs 1+2 and 1 + newline 2 alike the
    parser dies at the end of the input: neither parses to a tree.  Stopped
    by a rune that is not legal, it returns for both the same tree but for
    the position of the literal 2. *)
Theorem whitespace_inputs_die :
  parseExpression (NewLexer (runes "1 +" ++ [10] ++ runes "2"))
    = Some (Fatal ErrInvalidUnreadRune) /\
  parseExpression (NewLexer (runes "1+2"))
    = Some (Fatal ErrInvalidUnreadRune) /\
  parseExpression (NewLexer (runes "1 +" ++ [10] ++ runes "2;"))
    = Some (Ok (BinaryExpression
                  (IntegerLiteral 1 (mkPosition 1 1)) ADD
                  (IntegerLiteral 2 (mkPosition 2 1)) (mkPosition 1 1),
                mkLexer (mkPosition 2 1) (mkReader (runes ";") None))) /\
  parseExpression (NewLexer (runes "1+2;"))
    = Some (Ok (BinaryExpression
                  (IntegerLiteral 1 (mkPosition 1 1)) ADD
                  (IntegerLiteral 2 (mkPosition 1 3)) (mkPosition 1 1),
                mkLexer (mkPosition 1 3) (mkReader (runes ";") None))) /\
  main (runes "1 +" ++ [10] ++ runes "2;") = Some (Exit0 ["(1 + 2)"; "3"]) /\
  main (runes "1+2;") = Some (Exit0 ["(1 + 2)"; "3"]).
Proof. repeat split. Qed.

(** ** The loop of [parseAddSubExpr] and the white space of [Lex] *)

(** One turn of the loop of [parseAddSubExpr] on [+] or [-]: the tree built
    so far becomes the left child of the new node. *)
Lemma parseAddSubLoop_fold (fuel : nat) (left_ right_ : Expression)
    (l l1 l2 : Lexer) (tok : Token) (lit : string) (p : Position) :
  Lex l = Ok (tok, lit, l1) ->
  tok = ADD \/ tok = SUB ->
  parseMulDivExpr fuel l1 = Some (Ok (right_, l2)) ->
  Pos left_ = Ok p ->
  parseAddSubLoop (S fuel) left_ l
  = parseAddSubLoop fuel (BinaryExpression left_ tok right_ p) l2.
Proof.
  intros E Htok Hr Hp. cbn [parseAddSubLoop]. rewrite E. cbn [bindF].
  destruct Htok as [-> | ->]; cbn [Token_eqb negb andb];
    rewrite Hr; cbn [bindF]; rewrite Hp; reflexivity.
Qed.

(** X13.  White space before a token changes the position alone: the
    token, its literal and the reader that [Lex] returns are those of [Lex]
    entered after the white space, at another position. *)
Lemma Lex_skips_white_space (ws rest : list rune) :
  forallb IsSpace ws = true ->
  forall p, exists p', LexLoop (ws ++ rest) p = LexLoop rest p'.
Proof.
  induction ws as [|r ws IH]; intros Hws p; [now exists p |].
  simpl in Hws. apply andb_true_iff in Hws as [Hr Hws].
  cbn [app LexLoop].
  destruct (r =? 10); [apply IH, Hws |].
  destruct (IsSpace_not_operator r Hr) as (N1 & N2 & N3 & N4).
  rewrite N1, N2, N3, N4, Hr. cbn [pos]. apply IH, Hws.
Qed.


(** ** More on the lexer *)

Lemma IsSpace_newline : IsSpace 10 = true.
Proof. reflexivity. Qed.

Lemma takeWhile_dropWhile {A} (f : A -> bool) (l : list A) :
  takeWhile f l ++ dropWhile f l = l.
Proof.
  induction l as [|x l IH]; simpl; [reflexivity |].
  destruct (f x); simpl; [now rewrite IH | reflexivity].
Qed.

Lemma advance_digits (ds : list rune) :
  forall p, forallb IsDigit ds = true ->
    advance p ds
    = mkPosition (line p) (column p + Z.of_nat (List.length ds)).
Proof.
  unfold advance.
  induction ds as [|d ds IH]; intros [ln col] Hds; simpl.
  - now rewrite Z.add_0_r.
  - simpl in Hds. apply andb_true_iff in Hds as [Hd Hds].
    destruct (IsDigit_not_operator d Hd) as (N & _). rewrite N.
    rewrite IH by assumption. simpl. f_equal. lia.
Qed.

Lemma takeWhile_forallb {A} (f : A -> bool) (l : list A) :
  forallb f (takeWhile f l) = true.
Proof.
  induction l as [|x l IH]; simpl; [reflexivity |].
  destruct (f x) eqn:E; simpl; [now rewrite E | reflexivity].
Qed.

(** All of [Lex] at once: the token, the literal, the runes consumed and
    the position. *)
Lemma LexLoop_full (rs : list rune) :
  forall p, exists l1 consumed,
    LexLoop rs p = Ok (firstToken rs, firstLiteral rs, l1) /\
    rs = consumed ++ buf (reader l1) /\
    line (pos l1) = line (advance p consumed) /\
    column (pos l1) = column (advance p consumed).
Proof.
  induction rs as [|r rs IH]; intros p.
  - exists (mkLexer p (mkReader [] None)), []. repeat split.
  - unfold firstToken, firstLiteral. cbn [dropWhile].
    destruct (IsSpace r) eqn:Hsp.
    + destruct (IsSpace_not_operator r Hsp) as (N1 & N2 & N3 & N4).
      cbn [LexLoop]. rewrite N1, N2, N3, N4, Hsp. cbn [pos].
      destruct (r =? 10) eqn:E0.
      * destruct (IH (resetPosition (incColumn p)))
          as (l1 & consumed & E & Hc & Hl & Hcol).
        exists l1, (r :: consumed). split; [exact E |].
        split; [simpl; now rewrite <- Hc |].
        unfold advance in *. simpl. rewrite E0. now split.
      * destruct (IH (incColumn p)) as (l1 & consumed & E & Hc & Hl & Hcol).
        exists l1, (r :: consumed). split; [exact E |].
        split; [simpl; now rewrite <- Hc |].
        unfold advance in *. simpl. rewrite E0. now split.
    + assert (E0 : (r =? 10) = false).
      { apply Z.eqb_neq. intros ->. rewrite IsSpace_newline in Hsp.
        discriminate. }
      destruct (IsDigit r) eqn:Hd.
      * destruct (IsDigit_not_operator r Hd) as (_ & N1 & N2 & N3 & N4).
        cbn [LexLoop]. rewrite E0, N1, N2, N3, N4, Hsp, Hd.
        unfold backup, lexInt.
        cbn [UnreadRune lastRune reader buf pos bind].
        rewrite lexIntLoop_takeWhile. cbn [bind].
        eexists _, (takeWhile IsDigit (r :: rs)).
        split; [reflexivity |].
        split; [cbn [reader buf]; now rewrite takeWhile_dropWhile |].
        rewrite advance_digits by apply takeWhile_forallb.
        cbn [pos line column incColumn]. split; [reflexivity | lia].
      * assert (Hs : isSingle r = true).
        { unfold isSingle. now rewrite E0, Hsp, Hd. }
        rewrite (LexLoop_single r rs p Hs).
        exists (mkLexer (incColumn p) (mkReader rs (Some r))), [r].
        split; [reflexivity |]. split; [reflexivity |].
        unfold advance. simpl. rewrite E0. now split.
Qed.

(** X1.  [Lex] always returns, and the token is decided by the first rune
    after the white space: [EOF] when there is none, [INT] with the maximal
    run of digits as literal when it is a digit, the operator with its sign
    as literal when it is one of the four signs, and [ILLEGAL] with the rune
    as literal otherwise; [IDENT] is never returned. *)
Theorem Lex_first_token (l : Lexer) :
  (exists l1,
     Lex l = Ok (firstToken (buf (reader l)),
                 firstLiteral (buf (reader l)), l1)) /\
  firstToken (buf (reader l)) <> IDENT /\
  (isArith (firstToken (buf (reader l))) = true ->
     firstLiteral (buf (reader l)) = tokens (firstToken (buf (reader l)))).
Proof.
  split; [| split].
  - destruct (LexLoop_full (buf (reader l)) (pos l)) as (l1 & _ & E & _).
    now exists l1.
  - unfold firstToken. destruct (dropWhile IsSpace (buf (reader l)))
      as [|r rest]; [discriminate |].
    destruct (IsDigit r); [discriminate |].
    destruct (singleToken_cases r) as [E | [E | [E | [E | E]]]];
      rewrite E; discriminate.
  - unfold firstToken, firstLiteral.
    destruct (dropWhile IsSpace (buf (reader l))) as [|r rest];
      [discriminate |].
    destruct (IsDigit r); [discriminate |].
    unfold singleToken.
    destruct (r =? 43) eqn:E1; [apply Z.eqb_eq in E1; now subst |].
    destruct (r =? 45) eqn:E2; [apply Z.eqb_eq in E2; now subst |].
    destruct (r =? 42) eqn:E3; [apply Z.eqb_eq in E3; now subst |].
    destruct (r =? 47) eqn:E4; [apply Z.eqb_eq in E4; now subst |].
    discriminate.
Qed.

(** X2.  [Lex] consumes a prefix of the unread input and keeps the position
    in step with it: the line grows by one and the column restarts at 0 at
    each newline consumed, the column grows by one at every other rune; a
    rune that [Lex] unread is not counted. *)
Theorem Lex_position (l : Lexer) :
  exists tok lit l1 consumed,
    Lex l = Ok (tok, lit, l1) /\
    buf (reader l) = consumed ++ buf (reader l1) /\
    line (pos l1) = line (advance (pos l) consumed) /\
    column (pos l1) = column (advance (pos l) consumed).
Proof.
  destruct (LexLoop_full (buf (reader l)) (pos l)) as (l1 & c & E & H).
  now exists (firstToken (buf (reader l))), (firstLiteral (buf (reader l))),
    l1, c.
Qed.

(** X3.  Peeking with [Lex] and [backup]: after an operator or an [ILLEGAL]
    token [backup] succeeds, and the next [Lex] returns the same token and
    literal and the same lexer state; after an [INT] or [EOF] token [backup]
    ends the process with the error of [UnreadRune]. *)
Theorem Lex_backup_peek (l l1 : Lexer) (tok : Token) (lit : string) :
  Lex l = Ok (tok, lit, l1) ->
  (isArith tok = true \/ tok = ILLEGAL ->
     exists l2, backup l1 = Ok l2 /\ Lex l2 = Ok (tok, lit, l1)) /\
  (tok = INT \/ tok = EOF -> backup l1 = Fatal ErrInvalidUnreadRune).
Proof.
  intros E.
  destruct (Lex_spec l) as (tok' & lit' & l1' & E' & _ & P).
  rewrite E in E'. injection E' as <- <- <-.
  destruct l1 as [[ln col] [b lr]]. cbn [reader lastRune buf] in P.
  destruct lr as [r|].
  - destruct P as (Hs & -> & -> & _). split.
    + intros _. unfold backup, UnreadRune. cbn [reader lastRune buf pos].
      eexists. split; [reflexivity |].
      unfold Lex. cbn [reader buf pos]. rewrite (LexLoop_single r b _ Hs).
      unfold incColumn. cbn [line column].
      replace (col - 1 + 1) with col by lia. reflexivity.
    + intros [H | H]; exfalso;
        destruct (singleToken_cases r) as [T | [T | [T | [T | T]]]];
        rewrite T in H; discriminate.
  - split.
    + intros H. exfalso.
      destruct P as [[-> _] | [-> _]]; destruct H; discriminate.
    + intros _. reflexivity.
Qed.

(** ** More on the parser and the program *)

Lemma parseExpression_first_token (l : Lexer) :
  firstToken (buf (reader l)) <> INT ->
  parseExpression l
  = Some (Fatal ("Unexpected token: "
                 ++ tokens (firstToken (buf (reader l))))%string).
Proof.
  intros Hne. unfold parseExpression, parseAddSubExpr, parseMulDivExpr,
    parsePrimaryExpr, Lex.
  destruct (LexLoop_full (buf (reader l)) (pos l)) as (l1 & _ & E & _).
  rewrite E. cbn [bind].
  destruct (Token_eqb (firstToken (buf (reader l))) INT) eqn:Ht.
  - destruct (firstToken (buf (reader l))); discriminate || contradiction.
  - reflexivity.
Qed.

(** X4.  When the first token of the input is not an integer literal (the
    input is empty or white space only, or starts with an operator or with
    an illegal rune), the program prints nothing and dies with the message
    [Unexpected token:] followed by the name of that token. *)
Theorem main_unexpected_first_token (input : list rune) :
  firstToken input <> INT ->
  main input
  = Some (LogFatal []
            ("Unexpected token: " ++ tokens (firstToken input))%string).
Proof.
  intros Hne. unfold main.
  now rewrite (parseExpression_first_token (NewLexer input) Hne).
Qed.

(** X5.  The parser returns a tree only when it has stopped in front of a
    rune of the input that [Lex] classifies as [ILLEGAL]: the lexer it
    returns has that rune as the next one to read and nothing to unread. *)
Theorem parseExpression_stops_before_illegal (l l' : Lexer) (e : Expression) :
  parseExpression l = Some (Ok (e, l')) ->
  lastRune (reader l') = None /\
  exists r rest,
    buf (reader l') = r :: rest /\ legal r = false /\
    In r (buf (reader l)) /\ firstToken (r :: rest) = ILLEGAL.
Proof.
  intros E. pose proof (parseExpression_spec l) as H. rewrite E in H.
  destruct H as (_ & (r & (Hl & Hs & rest & Hb) & Hi) & _ & Hin).
  split; [exact Hl |]. exists r, rest.
  split; [exact Hb |].
  split; [now apply singleToken_ILLEGAL_not_legal |].
  split; [apply Hin; rewrite Hb; now left |].
  unfold firstToken. cbn [dropWhile].
  unfold isSingle in Hs.
  apply andb_true_iff in Hs as [Hs H3]. apply andb_true_iff in Hs as [_ H2].
  apply negb_true_iff in H2, H3. now rewrite H2, H3.
Qed.

(** ** The parser on the texts of the grammar *)

Lemma LexLoop_skip_spaces (ws rest : list rune) :
  forallb IsSpace ws = true ->
  forall p, exists p', LexLoop (ws ++ rest) p = LexLoop rest p'.
Proof.
  induction ws as [|r ws IH]; intros Hws p; [now exists p |].
  simpl in Hws. apply andb_true_iff in Hws as [Hr Hws].
  cbn [app LexLoop].
  destruct (r =? 10); [apply IH, Hws |].
  destruct (IsSpace_not_operator r Hr) as (N1 & N2 & N3 & N4).
  rewrite N1, N2, N3, N4, Hr. cbn [pos]. apply IH, Hws.
Qed.

Lemma isSingle_not_digit (r : rune) : isSingle r = true -> IsDigit r = false.
Proof.
  unfold isSingle. intros H. apply andb_true_iff in H as [_ H].
  now apply negb_true_iff in H.
Qed.

Lemma isMulDiv_single (r : rune) :
  isMulDiv r = true ->
  isSingle r = true /\ (singleToken r = MUL \/ singleToken r = DIV).
Proof.
  unfold isMulDiv. intros H. apply orb_true_iff in H as [H | H];
    apply Z.eqb_eq in H; subst r; split; auto.
Qed.

Lemma isAddSub_single (r : rune) :
  isAddSub r = true ->
  isSingle r = true /\ (singleToken r = ADD \/ singleToken r = SUB).
Proof.
  unfold isAddSub. intros H. apply orb_true_iff in H as [H | H];
    apply Z.eqb_eq in H; subst r; split; auto.
Qed.

Lemma not_legal_single (r : rune) :
  legal r = false -> isSingle r = true /\ singleToken r = ILLEGAL.
Proof.
  unfold legal, isSingle, singleToken. intros H.
  repeat (apply orb_false_iff in H; destruct H as [H ?]).
  repeat match goal with E : _ = false |- _ => rewrite E; clear E end.
  split; reflexivity.
Qed.

Lemma headSingle_not_digit (ws rest : list rune) :
  forallb IsSpace ws = true -> headSingle rest ->
  match ws ++ rest with [] => True | r :: _ => IsDigit r = false end.
Proof.
  intros Hws Hr. destruct ws as [|x ws]; simpl.
  - destruct rest as [|r rest]; [exact I | now apply isSingle_not_digit].
  - simpl in Hws. apply andb_true_iff in Hws as [Hx _].
    destruct (IsDigit x) eqn:Hd; [| reflexivity].
    apply IsDigit_not_IsSpace in Hd. congruence.
Qed.

Lemma LexLoop_at_digits (w ds rest : list rune) (p : Position) :
  forallb IsSpace w = true ->
  negb (Nat.eqb (List.length ds) 0) = true ->
  forallb IsDigit ds = true ->
  match rest with [] => True | r :: _ => IsDigit r = false end ->
  exists p',
    LexLoop (w ++ ds ++ rest) p
    = Ok (INT, string_of_runes ds, mkLexer p' (mkReader rest None)).
Proof.
  intros Hw Hne Hds Hrest.
  destruct (LexLoop_skip_spaces w (ds ++ rest) Hw p) as [p1 ->].
  destruct ds as [|d ds]; [discriminate |]. clear Hne.
  assert (Hd : IsDigit d = true).
  { simpl in Hds. now apply andb_true_iff in Hds as [Hd _]. }
  destruct (IsDigit_not_operator d Hd) as (N1 & N2 & N3 & N4 & N5).
  pose proof (IsDigit_not_IsSpace d Hd) as N6.
  change ((d :: ds) ++ rest) with (d :: (ds ++ rest)).
  cbn [LexLoop]. rewrite N1, N2, N3, N4, N5, N6, Hd.
  unfold backup, lexInt. cbn [UnreadRune lastRune reader buf pos bind].
  change (d :: (ds ++ rest)) with ((d :: ds) ++ rest).
  rewrite lexIntLoop_run by assumption. cbn [bind]. eauto.
Qed.

Lemma LexLoop_at_single (w : list rune) (r : rune) (rest : list rune)
    (p : Position) :
  forallb IsSpace w = true -> isSingle r = true ->
  exists p',
    LexLoop (w ++ r :: rest) p
    = Ok (singleToken r, string_of_rune r,
          mkLexer p' (mkReader rest (Some r))).
Proof.
  intros Hw Hs.
  destruct (LexLoop_skip_spaces w (r :: rest) Hw p) as [p1 ->].
  rewrite (LexLoop_single r rest p1 Hs). eauto.
Qed.

Lemma parsePrimaryExpr_operand (l : Lexer) (w : list rune) (o : Operand)
    (rest : list rune) :
  buf (reader l) = w ++ operandText o ++ rest ->
  forallb IsSpace w = true -> operandOk o = true -> headSingle rest ->
  exists p',
    parsePrimaryExpr l
    = Ok (IntegerLiteral (fst (Atoi (string_of_runes (fst o)))) p',
          mkLexer p' (mkReader (snd o ++ rest) None)).
Proof.
  intros Hbuf Hw Ho Hrest. unfold operandOk in Ho.
  apply andb_true_iff in Ho as [Ho Hsp]. apply andb_true_iff in Ho as [Hne Hd].
  unfold parsePrimaryExpr, Lex. rewrite Hbuf. unfold operandText.
  rewrite <- app_assoc.
  destruct (LexLoop_at_digits w (fst o) (snd o ++ rest) (pos l) Hw Hne Hd
              (headSingle_not_digit _ _ Hsp Hrest)) as [p' ->].
  cbn [bind Token_eqb]. destruct (Atoi _) as [value err].
  cbn [fst pos]. rewrite Position_eta. eauto.
Qed.

Lemma tailText_cons {A} (text : A -> list rune) (op : rune) (ws : list rune)
    (a : A) (t : Tail A) (rest : list rune) :
  tailText text ((op, ws, a) :: t) ++ rest
  = op :: ws ++ text a ++ tailText text t ++ rest.
Proof.
  unfold tailText. cbn [flat_map]. cbn [app].
  now rewrite <- !app_assoc.
Qed.

Lemma headSingle_tail {A} (sign : rune -> bool) (ok : A -> bool)
    (text : A -> list rune) (t : Tail A) (rest : list rune) :
  (forall r, sign r = true -> isSingle r = true) ->
  tailOk sign ok t = true -> headSingle rest ->
  headSingle (tailText text t ++ rest).
Proof.
  intros Hsign Ht Hrest. destruct t as [|[[op ws] a] t]; [exact Hrest |].
  rewrite tailText_cons. simpl in Ht.
  apply andb_true_iff in Ht as [Ht _]. apply andb_true_iff in Ht as [Ht _].
  apply andb_true_iff in Ht as [Ht _]. now apply Hsign.
Qed.

Lemma parseMulDivLoop_tail (fs : Tail Operand) :
  forall (fuel : nat) (left_ : Expression) (l : Lexer) (w rest : list rune),
    buf (reader l) = w ++ tailText operandText fs ++ rest ->
    forallb IsSpace w = true ->
    tailOk isMulDiv operandOk fs = true ->
    headEndsTerm rest ->
    ast_ok left_ = true ->
    (List.length (buf (reader l)) < fuel)%nat ->
    exists e p',
      parseMulDivLoop fuel left_ l
      = Some (Ok (e, mkLexer p' (mkReader rest None))) /\
      erase e = tailTree operandLeaf fs (erase left_) /\
      ast_ok e = true.
Proof.
  induction fs as [|[[op ws] o] fs IH];
    intros fuel left_ l w rest Hbuf Hw Hfs Hrest Hok Hfuel;
    (destruct fuel as [|fuel]; [lia |]).
  - cbn [tailText flat_map app] in Hbuf.
    destruct rest as [|s rest]; [contradiction |].
    destruct Hrest as (Hs & HM & HD).
    cbn [parseMulDivLoop]. unfold Lex. rewrite Hbuf.
    destruct (LexLoop_at_single w s rest (pos l) Hw Hs) as [p1 ->].
    cbn [bindF].
    assert (Hc : negb (Token_eqb (singleToken s) MUL)
                 && negb (Token_eqb (singleToken s) DIV) = true).
    { destruct (singleToken s); try reflexivity; contradiction. }
    rewrite Hc. unfold backup, UnreadRune.
    cbn [reader lastRune buf bindF]. eauto.
  - rewrite tailText_cons in Hbuf.
    cbn [tailOk forallb] in Hfs. apply andb_true_iff in Hfs as [Hhd Hfs].
    apply andb_true_iff in Hhd as [Hhd Ho].
    apply andb_true_iff in Hhd as [Hop Hws].
    destruct (isMulDiv_single op Hop) as [Hs Htok].
    cbn [parseMulDivLoop]. unfold Lex. rewrite Hbuf.
    destruct (LexLoop_at_single w op
                (ws ++ operandText o ++ tailText operandText fs ++ rest)
                (pos l) Hw Hs) as [p1 ->].
    cbn [bindF].
    assert (Hc : negb (Token_eqb (singleToken op) MUL)
                 && negb (Token_eqb (singleToken op) DIV) = false).
    { destruct Htok as [-> | ->]; reflexivity. }
    rewrite Hc.
    assert (Hhead : headSingle (tailText operandText fs ++ rest)).
    { apply (headSingle_tail isMulDiv operandOk); trivial.
      - intros r Hr. now apply isMulDiv_single.
      - destruct rest; [contradiction | apply Hrest]. }
    destruct (parsePrimaryExpr_operand
                (mkLexer p1 (mkReader (ws ++ operandText o
                                       ++ tailText operandText fs ++ rest)
                                      (Some op)))
                ws o _ eq_refl Hws Ho Hhead) as [p2 ->].
    cbn [bindF]. destruct (ast_ok_Pos _ Hok) as [pl ->]. cbn [bindF].
    edestruct (IH fuel
                 (BinaryExpression left_ (singleToken op)
                    (IntegerLiteral
                       (fst (Atoi (string_of_runes (fst o)))) p2) pl)
                 (mkLexer p2 (mkReader (snd o ++ tailText operandText fs
                                        ++ rest) None))
                 (snd o) rest eq_refl) as (e & p' & E & He & Hoke);
      trivial.
    + unfold operandOk in Ho. now apply andb_true_iff in Ho as [_ Ho].
    + cbn [ast_ok]. rewrite Hok.
      destruct Htok as [-> | ->]; reflexivity.
    + rewrite Hbuf in Hfuel. cbn [reader buf].
      assert (Hlo : (List.length (snd o) <= List.length (operandText o))%nat)
        by (unfold operandText; rewrite List.length_app; lia).
      rewrite ?List.length_app in *. cbn [List.length] in Hfuel.
      rewrite ?List.length_app in *. lia.
    + exists e, p'. split; [exact E |]. split; [| exact Hoke].
      rewrite He. reflexivity.
Qed.

Lemma parseMulDivExpr_term (fuel : nat) (l : Lexer) (w : list rune)
    (t : Term) (rest : list rune) :
  buf (reader l) = w ++ termText t ++ rest ->
  forallb IsSpace w = true -> termOk t = true -> headEndsTerm rest ->
  (List.length (buf (reader l)) < fuel)%nat ->
  exists e p',
    parseMulDivExpr fuel l = Some (Ok (e, mkLexer p' (mkReader rest None))) /\
    erase e = termTree t /\ ast_ok e = true.
Proof.
  intros Hbuf Hw Ht Hrest Hfuel. destruct t as [o fs].
  unfold termOk in Ht. cbn [fst snd] in Ht.
  apply andb_true_iff in Ht as [Ho Hfs].
  unfold termText in Hbuf. cbn [fst snd] in Hbuf.
  rewrite <- app_assoc in Hbuf.
  assert (Hhead : headSingle (tailText operandText fs ++ rest)).
  { apply (headSingle_tail isMulDiv operandOk); trivial.
    - intros r Hr. now apply isMulDiv_single.
    - destruct rest; [contradiction | apply Hrest]. }
  unfold parseMulDivExpr.
  destruct (parsePrimaryExpr_operand l w o _ Hbuf Hw Ho Hhead) as [p1 ->].
  cbn [bindF].
  edestruct (parseMulDivLoop_tail fs fuel
               (IntegerLiteral (fst (Atoi (string_of_runes (fst o)))) p1)
               (mkLexer p1 (mkReader (snd o ++ tailText operandText fs ++ rest)
                                     None))
               (snd o) rest eq_refl) as (e & p' & E & He & Hoke); trivial.
  - unfold operandOk in Ho. now apply andb_true_iff in Ho as [_ Ho].
  - rewrite Hbuf in Hfuel. cbn [reader buf].
    assert (Hlo : (List.length (snd o) <= List.length (operandText o))%nat)
      by (unfold operandText; rewrite List.length_app; lia).
    rewrite ?List.length_app in *. lia.
  - exists e, p'. split; [exact E |]. split; [| exact Hoke].
    rewrite He. reflexivity.
Qed.

Lemma headEndsTerm_tail (ts : Tail Term) (s : rune) (rest : list rune) :
  tailOk isAddSub termOk ts = true -> legal s = false ->
  headEndsTerm (tailText termText ts ++ s :: rest).
Proof.
  intros Hts Hs. destruct ts as [|[[op ws] t] ts].
  - destruct (not_legal_single s Hs) as [H1 H2]. simpl.
    rewrite H2. repeat split; trivial; discriminate.
  - rewrite tailText_cons. simpl in Hts.
    apply andb_true_iff in Hts as [Hts _].
    apply andb_true_iff in Hts as [Hts _].
    apply andb_true_iff in Hts as [Hop _].
    destruct (isAddSub_single op Hop) as [H1 [H2 | H2]]; simpl;
      rewrite H2; repeat split; trivial; discriminate.
Qed.

Lemma parseAddSubLoop_tail (ts : Tail Term) :
  forall (fuel : nat) (left_ : Expression) (l : Lexer) (w : list rune)
         (s : rune) (rest : list rune),
    buf (reader l) = w ++ tailText termText ts ++ s :: rest ->
    forallb IsSpace w = true ->
    tailOk isAddSub termOk ts = true ->
    legal s = false ->
    ast_ok left_ = true ->
    (List.length (buf (reader l)) < fuel)%nat ->
    exists e p',
      parseAddSubLoop fuel left_ l
      = Some (Ok (e, mkLexer p' (mkReader (s :: rest) None))) /\
      erase e = tailTree termTree ts (erase left_).
Proof.
  induction ts as [|[[op ws] t] ts IH];
    intros fuel left_ l w s rest Hbuf Hw Hts Hleg Hok Hfuel;
    (destruct fuel as [|fuel]; [lia |]).
  - cbn [tailText flat_map app] in Hbuf.
    destruct (not_legal_single s Hleg) as [Hs Hill].
    cbn [parseAddSubLoop]. unfold Lex. rewrite Hbuf.
    destruct (LexLoop_at_single w s rest (pos l) Hw Hs) as [p1 ->].
    cbn [bindF]. rewrite Hill. cbn [Token_eqb negb andb].
    unfold backup, UnreadRune. cbn [reader lastRune buf bindF]. eauto.
  - rewrite tailText_cons in Hbuf.
    pose proof Hts as Hts0.
    cbn [tailOk forallb] in Hts. apply andb_true_iff in Hts as [Hhd Hts].
    apply andb_true_iff in Hhd as [Hhd Ht].
    apply andb_true_iff in Hhd as [Hop Hws].
    destruct (isAddSub_single op Hop) as [Hs Htok].
    cbn [parseAddSubLoop]. unfold Lex. rewrite Hbuf.
    destruct (LexLoop_at_single w op
                (ws ++ termText t ++ tailText termText ts ++ s :: rest)
                (pos l) Hw Hs) as [p1 ->].
    cbn [bindF].
    assert (Hc : negb (Token_eqb (singleToken op) ADD)
                 && negb (Token_eqb (singleToken op) SUB) = false).
    { destruct Htok as [-> | ->]; reflexivity. }
    rewrite Hc.
    assert (Hf1 : (List.length (ws ++ termText t ++ tailText termText ts
                                ++ s :: rest) < fuel)%nat).
    { rewrite Hbuf in Hfuel. rewrite ?List.length_app in *.
      cbn [List.length] in *. rewrite ?List.length_app in *.
      cbn [List.length] in *. lia. }
    destruct (parseMulDivExpr_term fuel
                (mkLexer p1 (mkReader (ws ++ termText t
                                       ++ tailText termText ts ++ s :: rest)
                                      (Some op)))
                ws t (tailText termText ts ++ s :: rest) eq_refl Hws Ht
                (headEndsTerm_tail ts s rest Hts Hleg) Hf1)
      as (right_ & p2 & -> & Her & Hokr).
    cbn [bindF]. destruct (ast_ok_Pos _ Hok) as [pl ->]. cbn [bindF].
    edestruct (IH fuel
                 (BinaryExpression left_ (singleToken op) right_ pl)
                 (mkLexer p2 (mkReader (tailText termText ts ++ s :: rest)
                                       None))
                 [] s rest eq_refl) as (e & p' & E & He); trivial.
    + cbn [ast_ok]. rewrite Hok, Hokr.
      destruct Htok as [-> | ->]; reflexivity.
    + cbn [reader buf]. rewrite ?List.length_app in *.
      cbn [List.length] in *. lia.
    + exists e, p'. split; [exact E |].
      rewrite He. cbn [erase]. rewrite Her. reflexivity.
Qed.

Lemma erase_evaluate (e : Expression) :
  evaluateExpression (erase e) = evaluateExpression e.
Proof.
  induction e as [l IHl op r IHr p | v p |]; simpl; try reflexivity.
  now rewrite IHl, IHr.
Qed.

Lemma erase_String (e : Expression) :
  Expression_String (erase e) = Expression_String e.
Proof.
  induction e as [l IHl op r IHr p | v p |]; simpl; try reflexivity.
  now rewrite IHl, IHr.
Qed.

Lemma erase_Println (e : Expression) : Println (erase e) = Println e.
Proof.
  destruct e as [l op r p | v p |]; try reflexivity.
  unfold Println. change (erase (BinaryExpression l op r p))
    with (BinaryExpression (erase l) op (erase r) noPos).
  now rewrite <- (erase_String (BinaryExpression l op r p)).
Qed.

Lemma parseExpression_sum (w : list rune) (x : Sum) (s : rune)
    (rest : list rune) :
  forallb IsSpace w = true -> sumOk x = true -> legal s = false ->
  exists e p',
    parseExpression (NewLexer (w ++ sumText x ++ s :: rest))
    = Some (Ok (e, mkLexer p' (mkReader (s :: rest) None))) /\
    erase e = sumTree x.
Proof.
  intros Hw Hx Hs. set (input := w ++ sumText x ++ s :: rest).
  destruct x as [t ts]. unfold sumOk in Hx. cbn [fst snd] in Hx.
  apply andb_true_iff in Hx as [Ht Hts].
  unfold parseExpression, parseAddSubExpr.
  set (fuel := S (List.length (buf (reader (NewLexer input))))).
  assert (Hbuf : buf (reader (NewLexer input))
                 = w ++ termText t ++ tailText termText ts ++ s :: rest).
  { unfold input, sumText. cbn [NewLexer reader buf fst snd].
    now rewrite <- app_assoc. }
  destruct (parseMulDivExpr_term fuel (NewLexer input) w t
              (tailText termText ts ++ s :: rest) Hbuf Hw Ht
              (headEndsTerm_tail ts s rest Hts Hs) ltac:(unfold fuel; lia))
    as (left_ & p1 & -> & Hel & Hokl).
  cbn [bindF].
  edestruct (parseAddSubLoop_tail ts fuel left_
               (mkLexer p1 (mkReader (tailText termText ts ++ s :: rest)
                                     None))
               [] s rest eq_refl) as (e & p' & E & He); trivial.
  - cbn [reader buf]. unfold fuel. rewrite Hbuf.
    rewrite ?List.length_app. lia.
  - exists e, p'. split; [exact E |].
    rewrite He, Hel. reflexivity.
Qed.

Lemma main_of_parse (input : list rune) (e : Expression) (l' : Lexer)
    (tree : Expression) :
  parseExpression (NewLexer input) = Some (Ok (e, l')) ->
  erase e = tree ->
  main input
  = Some (match evaluateExpression tree with
          | (v, None) => Exit0 [Println tree; Itoa v]
          | (_, Some err) => LogFatal [Println tree] err
          end).
Proof.
  intros E He. unfold main. rewrite E.
  rewrite <- (erase_Println e), <- (erase_evaluate e), He.
  destruct (evaluateExpression tree) as [v [err|]]; reflexivity.
Qed.

(** X6.  The parser and the program on every text of the grammar that is
    followed by a rune that is not legal: white space, a sum of terms under
    [+] and [-], each a product of integer literals under [*] and [/], with
    white space allowed after every token.  The parser returns, positions
    apart, the tree in which [*] and [/] bind tighter than [+] and [-] and
    every operator associates to the left, and it leaves the reader in front
    of the stopping rune; the program prints the rendering of that tree
    and then its value, or dies with the error of its evaluation. *)
Theorem parseExpression_grammar (w : list rune) (x : Sum) (s : rune)
    (rest : list rune) :
  forallb IsSpace w = true -> sumOk x = true -> legal s = false ->
  let input := w ++ sumText x ++ s :: rest in
  (exists e p',
     parseExpression (NewLexer input)
     = Some (Ok (e, mkLexer p' (mkReader (s :: rest) None))) /\
     erase e = sumTree x) /\
  main input
  = Some (match evaluateExpression (sumTree x) with
          | (v, None) => Exit0 [Println (sumTree x); Itoa v]
          | (_, Some err) => LogFatal [Println (sumTree x)] err
          end).
Proof.
  intros Hw Hx Hs input.
  pose proof (parseExpression_sum w x s rest Hw Hx Hs) as Hparse.
  split; [exact Hparse |].
  destruct Hparse as (e & p' & E & He).
  exact (main_of_parse input e _ (sumTree x) E He).
Qed.

(** ** More on the evaluator *)

Lemma wrap_mod (z : Z) : wrap z mod 2 ^ intSize = z mod 2 ^ intSize.
Proof.
  unfold wrap. rewrite Zminus_mod_idemp_l. f_equal. lia.
Qed.

Lemma wrap_eq_mod (a b : Z) :
  a mod 2 ^ intSize = b mod 2 ^ intSize -> wrap a = wrap b.
Proof.
  intros H. unfold wrap.
  rewrite (Z.add_mod a), (Z.add_mod b), H by (unfold intSize; lia).
  reflexivity.
Qed.

Lemma wrap_add (a b : Z) : wrap (wrap a + wrap b) = wrap (a + b).
Proof.
  apply wrap_eq_mod.
  rewrite Z.add_mod, !wrap_mod, <- Z.add_mod by (unfold intSize; lia).
  reflexivity.
Qed.

Lemma wrap_sub (a b : Z) : wrap (wrap a - wrap b) = wrap (a - b).
Proof.
  apply wrap_eq_mod.
  rewrite Zminus_mod, !wrap_mod, <- Zminus_mod. reflexivity.
Qed.

Lemma wrap_mul (a b : Z) : wrap (wrap a * wrap b) = wrap (a * b).
Proof.
  apply wrap_eq_mod.
  rewrite Z.mul_mod, !wrap_mod, <- Z.mul_mod by (unfold intSize; lia).
  reflexivity.
Qed.

(** X7.  On a tree of additions, subtractions and multiplications over
    literals of type [int] the evaluator never fails, and overflow is
    consistent: the result is the exact integer value of the expression
    brought into the range of [int] modulo 2^64, however the intermediate
    results overflow. *)
Theorem evaluate_wraps_exact_value (e : Expression) :
  divisionFree e = true ->
  evaluateExpression e = (wrap (exactValue e), None).
Proof.
  induction e as [l IHl op r IHr p | v p |]; cbn [divisionFree]; intros H.
  - apply andb_true_iff in H as [H Hr]. apply andb_true_iff in H as [Hop Hl].
    cbn [evaluateExpression]. rewrite (IHl Hl), (IHr Hr).
    destruct op; try discriminate; cbn [exactValue];
      [now rewrite wrap_add | now rewrite wrap_sub | now rewrite wrap_mul].
  - zbool. cbn [evaluateExpression exactValue].
    rewrite wrap_small by lia. reflexivity.
  - discriminate.
Qed.

(** X8.  Positions are never looked at: two trees that differ in their
    positions alone have the same rendering, are printed alike and
    evaluate to the same result. *)
Theorem positions_do_not_matter (e1 e2 : Expression) :
  erase e1 = erase e2 ->
  Expression_String e1 = Expression_String e2 /\
  Println e1 = Println e2 /\
  evaluateExpression e1 = evaluateExpression e2.
Proof.
  intros H.
  rewrite <- (erase_String e1), <- (erase_String e2).
  rewrite <- (erase_Println e1), <- (erase_Println e2).
  rewrite <- (erase_evaluate e1), <- (erase_evaluate e2).
  now rewrite H.
Qed.

(** ** [Itoa], and reading a rendering back *)

Lemma string_of_uint_digits (d : Decimal.uint) :
  isDigits (NilEmpty.string_of_uint d) = true /\
  plainText (NilEmpty.string_of_uint d) = true.
Proof.
  induction d as [|d [IH1 IH2]|d [IH1 IH2]|d [IH1 IH2]|d [IH1 IH2]
                  |d [IH1 IH2]|d [IH1 IH2]|d [IH1 IH2]|d [IH1 IH2]
                  |d [IH1 IH2]|d [IH1 IH2]];
    cbn [NilEmpty.string_of_uint isDigits plainText];
    rewrite ?IH1, ?IH2; split; reflexivity.
Qed.

Lemma decimal_of_uint_acc (d : Decimal.uint) :
  forall acc : positive,
    decimal (NilEmpty.string_of_uint d) (Z.pos acc)
    = Z.pos (Pos.of_uint_acc d acc).
Proof.
  induction d; intros acc; cbn [NilEmpty.string_of_uint decimal Pos.of_uint_acc];
    try reflexivity;
    rewrite <- IHd; f_equal; unfold Z_of_ascii;
    match goal with |- context [N_of_ascii ?c] =>
      let n := eval vm_compute in (N_of_ascii c) in
      change (N_of_ascii c) with n end;
    lia.
Qed.

Lemma decimal_of_uint (d : Decimal.uint) :
  decimal (NilEmpty.string_of_uint d) 0 = Z.of_N (Pos.of_uint d).
Proof.
  induction d; cbn [NilEmpty.string_of_uint decimal Pos.of_uint];
    try reflexivity; try exact IHd;
    unfold Z_of_ascii; simpl; apply decimal_of_uint_acc.
Qed.

Lemma Itoa_pos (p : positive) :
  Itoa (Z.pos p) = NilEmpty.string_of_uint (Pos.to_uint p) /\
  Itoa (Z.pos p) <> "".
Proof.
  unfold Itoa. cbn [Z.to_int NilZero.string_of_int].
  pose proof (DecimalPos.Unsigned.to_uint_nonnil p) as Hn.
  destruct (Pos.to_uint p); try contradiction; split;
    try reflexivity; discriminate.
Qed.

Lemma Itoa_nonneg (v : Z) :
  0 <= v ->
  Itoa v <> "" /\ isDigits (Itoa v) = true /\ decimal (Itoa v) 0 = v.
Proof.
  intros Hv. destruct v as [|p|p]; [| | lia].
  - repeat split. discriminate.
  - destruct (Itoa_pos p) as [E Hne]. split; [exact Hne |]. rewrite E.
    split; [apply string_of_uint_digits |].
    now rewrite decimal_of_uint, DecimalPos.Unsigned.of_to.
Qed.

Lemma Itoa_plain (v : Z) : plainText (Itoa v) = true /\ Itoa v <> "".
Proof.
  destruct v as [|p|p].
  - split; [reflexivity | discriminate].
  - destruct (Itoa_pos p) as [E Hne]. split; [| exact Hne].
    rewrite E. apply string_of_uint_digits.
  - unfold Itoa. cbn [Z.to_int NilZero.string_of_int]. split; [| discriminate].
    cbn [plainText]. unfold NilZero.string_of_uint.
    destruct (Pos.to_uint p) eqn:E; try reflexivity;
      rewrite <- E; apply string_of_uint_digits.
Qed.

Lemma Itoa_inj (a b : Z) : Itoa a = Itoa b -> a = b.
Proof.
  unfold Itoa. intros H. apply DecimalZ.to_int_inj.
  assert (Hn : forall z, Z.to_int z <> Decimal.Pos Decimal.Nil /\
                         Z.to_int z <> Decimal.Neg Decimal.Nil).
  { intros [|p|p]; cbn [Z.to_int]; split; try discriminate;
      intros [= E]; now apply (DecimalPos.Unsigned.to_uint_nonnil p). }
  destruct (Hn a) as [A1 A2]. destruct (Hn b) as [B1 B2].
  pose proof (NilZero.isi _ A1 A2) as Ea.
  pose proof (NilZero.isi _ B1 B2) as Eb.
  rewrite H in Ea. rewrite Ea in Eb. now injection Eb.
Qed.

(** The runes of a text of ASCII digits are digits, and their string is the
    text. *)
Lemma runes_digits (s : string) :
  isDigits s = true ->
  forallb IsDigit (runes s) = true /\ string_of_runes (runes s) = s.
Proof.
  induction s as [|c s IH]; intros H; [split; reflexivity |].
  cbn [isDigits] in H. zbool.
  destruct (IH ltac:(assumption)) as [IH1 IH2].
  cbn [runes forallb string_of_runes]. rewrite IH1, IH2.
  fold (Z_of_ascii c). split.
  - unfold IsDigit.
    destruct (Z.leb_spec (Z_of_ascii c) 255); [| lia].
    apply andb_true_iff; split; [apply andb_true_iff; split |];
      trivial; apply Z.leb_le; lia.
  - unfold string_of_rune.
    replace (Z_of_ascii c <? 0) with false by (symmetry; apply Z.ltb_ge; lia).
    replace (1114111 <? Z_of_ascii c) with false
      by (symmetry; apply Z.ltb_ge; lia).
    replace (55296 <=? Z_of_ascii c) with false
      by (symmetry; apply Z.leb_gt; lia).
    replace (Z_of_ascii c <? 128) with true by (symmetry; apply Z.ltb_lt; lia).
    cbn [orb andb str1 append]. f_equal.
    unfold byte. rewrite Z.mod_small by lia. unfold Z_of_ascii.
    now rewrite N2Z.id, ascii_N_embedding.
Qed.

(** X9.  What the program prints for a literal it reads back the same: fed
    the decimal text of a value of [int] that is not negative, followed by a
    rune that is not legal, the parser returns the leaf of that value and
    the program prints the text twice, as the tree and as the result. *)
Theorem literal_reads_back (v : Z) (s : rune) (rest : list rune) :
  0 <= v <= maxInt -> legal s = false ->
  (exists p p',
     parseExpression (NewLexer (runes (Itoa v) ++ s :: rest))
     = Some (Ok (IntegerLiteral v p,
                 mkLexer p' (mkReader (s :: rest) None)))) /\
  main (runes (Itoa v) ++ s :: rest) = Some (Exit0 [Itoa v; Itoa v]).
Proof.
  intros Hv Hs.
  destruct (Itoa_nonneg v ltac:(lia)) as (Hne & Hd & Hval).
  destruct (runes_digits (Itoa v) Hd) as [Hrd Hrs].
  assert (Hatoi : Atoi (Itoa v) = (v, None)).
  { rewrite (Atoi_digits _ Hne Hd), Hval.
    destruct (Z.leb_spec v maxInt); [reflexivity | lia]. }
  set (x := (((runes (Itoa v), []), []), []) : Sum).
  assert (Hx : sumOk x = true).
  { unfold x, sumOk, termOk, operandOk. cbn [fst snd tailOk forallb].
    rewrite Hrd. rewrite !andb_true_r. apply negb_true_iff.
    destruct (Itoa v); [congruence | reflexivity]. }
  assert (Htext : [] ++ sumText x ++ s :: rest = runes (Itoa v) ++ s :: rest).
  { unfold x, sumText, termText, operandText, tailText.
    cbn [fst snd flat_map app]. now rewrite !app_nil_r. }
  assert (Htree : sumTree x = IntegerLiteral v noPos).
  { unfold x, sumTree, termTree, tailTree, operandLeaf.
    cbn [fst snd fold_left]. now rewrite Hrs, Hatoi. }
  destruct (parseExpression_sum [] x s rest eq_refl Hx Hs)
    as (e & p' & E & He).
  rewrite Htext in E. rewrite Htree in He. split.
  - destruct e as [l op r p | v' p |]; try discriminate He.
    injection He as ->. now exists p, p'.
  - rewrite (main_of_parse _ e _ (IntegerLiteral v noPos) E He).
    reflexivity.
Qed.

(** ** The rendering determines the tree *)

Lemma tokens_plain (t : Token) : plainText (tokens t) = true.
Proof. destruct t; reflexivity. Qed.

Lemma tokens_inj (a b : Token) : tokens a = tokens b -> a = b.
Proof. destruct a, b; intros H; try reflexivity; discriminate H. Qed.

Lemma plain_split (a : string) :
  forall (b t1 t2 : string),
    plainText a = true -> plainText b = true ->
    afterRendering t1 -> afterRendering t2 ->
    (a ++ t1 = b ++ t2)%string -> a = b /\ t1 = t2.
Proof.
  induction a as [|c a IH]; intros [|d b] t1 t2 Ha Hb H1 H2 E;
    cbn [append] in E.
  - now split.
  - subst t1. cbn [plainText] in Hb. apply andb_true_iff in Hb as [Hd _].
    simpl in H1. congruence.
  - subst t2. cbn [plainText] in Ha. apply andb_true_iff in Ha as [Hc _].
    simpl in H2. congruence.
  - injection E as -> E.
    cbn [plainText] in Ha, Hb.
    apply andb_true_iff in Ha as [_ Ha]. apply andb_true_iff in Hb as [_ Hb].
    destruct (IH b t1 t2 Ha Hb H1 H2 E) as [-> ->]. now split.
Qed.

Lemma rendering_prefix (e1 : Expression) :
  forall (e2 : Expression) (s1 s2 t1 t2 : string),
    Expression_String e1 = Ok s1 -> Expression_String e2 = Ok s2 ->
    afterRendering t1 -> afterRendering t2 ->
    (s1 ++ t1 = s2 ++ t2)%string ->
    erase e1 = erase e2 /\ t1 = t2.
Proof.
  induction e1 as [l1 IHl op1 r1 IHr p1 | v1 p1 |];
    intros e2 s1 s2 t1 t2 E1 E2 H1 H2 E; [| | discriminate E1].
  - cbn [Expression_String] in E1.
    destruct (Expression_String l1) as [sl1 | |] eqn:El1; try discriminate E1.
    destruct (Expression_String r1) as [sr1 | |] eqn:Er1; try discriminate E1.
    cbn [bind] in E1. injection E1 as <-.
    destruct e2 as [l2 op2 r2 p2 | v2 p2 |]; [| | discriminate E2].
    + cbn [Expression_String] in E2.
      destruct (Expression_String l2) as [sl2 | |] eqn:El2;
        try discriminate E2.
      destruct (Expression_String r2) as [sr2 | |] eqn:Er2;
        try discriminate E2.
      cbn [bind] in E2. injection E2 as <-.
      repeat (progress (cbn [append] in E; rewrite ?string_app_assoc in E)).
      injection E as E.
      pose proof (fun A B => IHl l2 sl1 sl2 _ _ eq_refl El2 A B E) as Hx.
      destruct (Hx eq_refl eq_refl) as [Hl E']. clear Hx.
      injection E' as E'.
      pose proof (fun A B => plain_split _ _ _ _ (tokens_plain op1)
                               (tokens_plain op2) A B E') as Hx.
      destruct (Hx eq_refl eq_refl) as [Hop E'']. clear Hx.
      apply tokens_inj in Hop. injection E'' as E''.
      pose proof (fun A B => IHr r2 sr1 sr2 _ _ eq_refl Er2 A B E'') as Hx.
      destruct (Hx eq_refl eq_refl) as [Hr E3]. clear Hx.
      injection E3 as ->. cbn [erase]. rewrite Hl, Hr, Hop. now split.
    + cbn [Expression_String] in E2. injection E2 as <-.
      destruct (Itoa_plain v2) as [Hp Hne]. exfalso.
      destruct (Itoa v2) as [|c s]; [congruence |].
      cbn [append] in E. injection E as <- _. discriminate Hp.
  - cbn [Expression_String] in E1. injection E1 as <-.
    destruct e2 as [l2 op2 r2 p2 | v2 p2 |]; [| | discriminate E2].
    + cbn [Expression_String] in E2.
      destruct (Expression_String l2) as [sl2 | |]; try discriminate E2.
      destruct (Expression_String r2) as [sr2 | |]; try discriminate E2.
      cbn [bind] in E2. injection E2 as <-.
      destruct (Itoa_plain v1) as [Hp Hne]. exfalso.
      destruct (Itoa v1) as [|c s]; [congruence |].
      cbn [append] in E. injection E as -> _. discriminate Hp.
    + cbn [Expression_String] in E2. injection E2 as <-.
      destruct (Itoa_plain v1) as [Hp1 _]. destruct (Itoa_plain v2) as [Hp2 _].
      destruct (plain_split _ _ _ _ Hp1 Hp2 H1 H2 E) as [Hv ->].
      apply Itoa_inj in Hv. subst. now split.
Qed.

(** X10.  The rendering is unambiguous: two trees with the same rendering
    are the same tree, positions apart. *)
Theorem rendering_determines_tree (e1 e2 : Expression) (s : string) :
  Expression_String e1 = Ok s -> Expression_String e2 = Ok s ->
  erase e1 = erase e2.
Proof.
  intros E1 E2.
  apply (rendering_prefix e1 e2 s s "" "" E1 E2 I I eq_refl).
Qed.



(** X11.  The program cannot read its own output back in two cases: the
    rendering of a binary node starts with a parenthesis, which [Lex]
    classifies as [ILLEGAL], and the rendering of a negative literal starts
    with the sign [-]; fed either text the program dies on the first
    token. *)
Theorem rendering_is_not_read_back :
  (forall l op r p s rest,
     Expression_String (BinaryExpression l op r p) = Ok s ->
     main (runes s ++ rest)
     = Some (LogFatal [] "Unexpected token: ILLEGAL")) /\
  (forall v rest,
     v < 0 ->
     main (runes (Itoa v) ++ rest) = Some (LogFatal [] "Unexpected token: -")).
Proof.
  split.
  - intros l op r p s rest E. cbn [Expression_String] in E.
    destruct (Expression_String l) as [sl | |]; try discriminate E.
    destruct (Expression_String r) as [sr | |]; try discriminate E.
    cbn [bind] in E. injection E as <-.
    unfold main. rewrite parseExpression_first_token; reflexivity || discriminate.
  - intros v rest Hv. destruct v as [|q|q]; try lia.
    unfold main. rewrite parseExpression_first_token;
      reflexivity || discriminate.
Qed.

(** ** Invariants of the trees the parser builds *)

Section Invariant.

Variable Inv : Expression -> Prop.
Hypothesis Inv_leaf : forall v p, Inv (IntegerLiteral v p).
Hypothesis Inv_node :
  forall l op r p,
    Inv l -> Inv r -> isArith op = true -> Pos l = Ok p ->
    Inv (BinaryExpression l op r p).

Lemma parsePrimaryExpr_Inv (l l' : Lexer) (e : Expression) :
  parsePrimaryExpr l = Ok (e, l') -> Inv e.
Proof.
  intros E. pose proof (parsePrimaryExpr_spec l) as H. rewrite E in H.
  destruct H as (lit & _ & -> & _). apply Inv_leaf.
Qed.

Lemma parseMulDivLoop_Inv (fuel : nat) :
  forall left_ l e l',
    Inv left_ ->
    parseMulDivLoop fuel left_ l = Some (Ok (e, l')) -> Inv e.
Proof.
  induction fuel as [|fuel IH]; intros left_ l e l' Hl E; [discriminate |].
  cbn [parseMulDivLoop] in E.
  destruct (Lex l) as [[[tok lit] l1] | |]; cbn [bindF] in E;
    try discriminate.
  destruct (negb (Token_eqb tok MUL) && negb (Token_eqb tok DIV)) eqn:Hc.
  - destruct (backup l1); cbn [bindF] in E; try discriminate.
    now injection E as <- _.
  - destruct (parsePrimaryExpr l1) as [[right_ l2] | |] eqn:Ep;
      cbn [bindF] in E; try discriminate.
    destruct (Pos left_) as [p | |] eqn:Epos; cbn [bindF] in E;
      try discriminate.
    apply (IH _ _ _ _ (Inv_node _ tok _ _ Hl (parsePrimaryExpr_Inv _ _ _ Ep)
                         ltac:(destruct tok; reflexivity || discriminate)
                         Epos) E).
Qed.

Lemma parseMulDivExpr_Inv (fuel : nat) (l l' : Lexer) (e : Expression) :
  parseMulDivExpr fuel l = Some (Ok (e, l')) -> Inv e.
Proof.
  unfold parseMulDivExpr. intros E.
  destruct (parsePrimaryExpr l) as [[left_ l1] | |] eqn:Ep;
    cbn [bindF] in E; try discriminate.
  apply (parseMulDivLoop_Inv fuel _ _ _ _ (parsePrimaryExpr_Inv _ _ _ Ep) E).
Qed.

Lemma parseAddSubLoop_Inv (fuel : nat) :
  forall left_ l e l',
    Inv left_ ->
    parseAddSubLoop fuel left_ l = Some (Ok (e, l')) -> Inv e.
Proof.
  induction fuel as [|fuel IH]; intros left_ l e l' Hl E; [discriminate |].
  cbn [parseAddSubLoop] in E.
  destruct (Lex l) as [[[tok lit] l1] | |]; cbn [bindF] in E;
    try discriminate.
  destruct (negb (Token_eqb tok ADD) && negb (Token_eqb tok SUB)) eqn:Hc.
  - destruct (backup l1); cbn [bindF] in E; try discriminate.
    now injection E as <- _.
  - destruct (parseMulDivExpr fuel l1) as [[[right_ l2] | |] |] eqn:Ep;
      cbn [bindF] in E; try discriminate.
    destruct (Pos left_) as [p | |] eqn:Epos; cbn [bindF] in E;
      try discriminate.
    apply (IH _ _ _ _ (Inv_node _ tok _ _ Hl (parseMulDivExpr_Inv _ _ _ _ Ep)
                         ltac:(destruct tok; reflexivity || discriminate)
                         Epos) E).
Qed.

Lemma parseExpression_Inv (l l' : Lexer) (e : Expression) :
  parseExpression l = Some (Ok (e, l')) -> Inv e.
Proof.
  unfold parseExpression, parseAddSubExpr. intros E.
  destruct (parseMulDivExpr _ l) as [[[left_ l1] | |] |] eqn:Ep;
    cbn [bindF] in E; try discriminate.
  apply (parseAddSubLoop_Inv _ _ _ _ _ (parseMulDivExpr_Inv _ _ _ _ Ep) E).
Qed.

End Invariant.

Lemma positionsOk_Pos (e : Expression) :
  forall p, positionsOk e -> Pos e = Ok p -> positionOf e = Some p.
Proof.
  induction e as [l IHl op r _ q | v q |]; intros p;
    cbn [positionsOk Pos positionOf].
  - intros (Hl & Hokl & _) [= <-]. now apply IHl.
  - now intros _ [= <-].
  - contradiction.
Qed.

(** X12.  In every tree the parser returns, each binary node carries the
    position of its left child, so that the position of a tree is the
    position of its leftmost literal. *)
Theorem parser_positions (l l' : Lexer) (e : Expression) :
  parseExpression l = Some (Ok (e, l')) ->
  positionsOk e /\
  exists p, Pos e = Ok p /\ positionOf e = Some p.
Proof.
  intros E.
  assert (Hok : positionsOk e).
  { apply (parseExpression_Inv positionsOk) with (l := l) (l' := l');
      [intros; exact I | | exact E].
    intros l0 op r p Hl Hr _ Hp. cbn [positionsOk]. auto. }
  split; [exact Hok |].
  destruct e as [a op b p | v p |]; [| | contradiction];
    (exists p; split; [reflexivity |]);
    now apply positionsOk_Pos.
Qed.

(** ** Literals of digits outside ASCII *)

Lemma Z_of_ascii_byte (z : Z) : Z_of_ascii (byte z) = z mod 256.
Proof.
  unfold Z_of_ascii, byte.
  pose proof (Z.mod_pos_bound z 256 ltac:(lia)) as Hb.
  rewrite N_ascii_embedding by lia. lia.
Qed.

Lemma lor_lead (k x : Z) :
  k = 192 \/ k = 224 \/ k = 240 -> 0 <= x < 32 ->
  128 <= Z.lor k x < 256.
Proof.
  intros Hk Hx.
  assert (Hn : x = Z.of_nat (Z.to_nat x)) by lia.
  assert (Hlt : (Z.to_nat x < 32)%nat) by lia.
  rewrite Hn. generalize dependent (Z.to_nat x). intros n _ Hlt. clear Hx.
  do 32 (destruct n as [|n];
         [destruct Hk as [-> | [-> | ->]]; vm_compute;
          (split; [intros E; discriminate E | reflexivity]) |]).
  lia.
Qed.

Lemma string_of_rune_lead (r : rune) :
  128 <= r ->
  exists c s, string_of_rune r = String c s /\ 128 <= Z_of_ascii c.
Proof.
  intros Hr. unfold string_of_rune.
  destruct ((r <? 0) || (1114111 <? r) || ((55296 <=? r) && (r <=? 57343)))
    eqn:Hbad; [eexists _, _; split; [reflexivity | vm_compute; discriminate] |].
  apply orb_false_iff in Hbad as [Hbad _].
  apply orb_false_iff in Hbad as [_ Hmax]. apply Z.ltb_ge in Hmax.
  replace (r <? 128) with false by (symmetry; apply Z.ltb_ge; lia).
  assert (Hlead : forall k n, k = 192 \/ k = 224 \/ k = 240 ->
            r < 32 * 2 ^ n -> 0 <= n ->
            128 <= Z_of_ascii (byte (Z.lor k (Z.shiftr r n)))).
  { intros k n Hk Hn Hn0. rewrite Z_of_ascii_byte.
    assert (0 <= Z.shiftr r n < 32).
    { rewrite Z.shiftr_div_pow2 by lia. split.
      - apply Z.div_pos; [lia | apply Z.pow_pos_nonneg; lia].
      - apply Z.div_lt_upper_bound; [apply Z.pow_pos_nonneg; lia | lia]. }
    pose proof (lor_lead k (Z.shiftr r n) Hk ltac:(assumption)).
    rewrite Z.mod_small; lia. }
  destruct (r <? 2048) eqn:H2; [| destruct (r <? 65536) eqn:H3].
  - apply Z.ltb_lt in H2. eexists _, _. split; [reflexivity |].
    apply Hlead; [tauto | simpl; lia | lia].
  - apply Z.ltb_lt in H3. eexists _, _. split; [reflexivity |].
    apply Hlead; [tauto | simpl; lia | lia].
  - eexists _, _. split; [reflexivity |].
    apply Hlead; [tauto | simpl; lia | lia].
Qed.

Lemma Atoi_bad_lead (c : ascii) (s : string) :
  128 <= Z_of_ascii c -> Atoi (String c s) = (0, Some ErrSyntax).
Proof.
  intros Hc.
  assert (Hb : Z_of_ascii c < 256).
  { unfold Z_of_ascii. pose proof (N_ascii_bounded c). lia. }
  assert (N1 : (Z_of_ascii c =? 45) = false) by (apply Z.eqb_neq; lia).
  assert (N2 : (Z_of_ascii c =? 43) = false) by (apply Z.eqb_neq; lia).
  assert (N3 : (Z_of_ascii c <=? 57) = false) by (apply Z.leb_gt; lia).
  unfold Atoi.
  destruct ((0 <? Z.of_nat (String.length (String c s))) &&
            (Z.of_nat (String.length (String c s)) <? 19)).
  - rewrite N1, N2. cbn [orb andb AtoiFast].
    rewrite Z.mod_small by lia.
    destruct (Z_of_ascii c - 48 >? 9) eqn:E; [reflexivity |].
    rewrite Z.gtb_ltb in E. apply Z.ltb_ge in E. lia.
  - unfold ParseInt. rewrite N1, N2. cbn [orb].
    unfold ParseUint. cbn [ParseUintLoop]. rewrite N3, andb_false_r.
    reflexivity.
Qed.

(** X16.  A literal that starts with a digit outside Latin-1 (any rune that
    [unicode.IsDigit] accepts above 255) is read as 0: [Atoi] answers
    [ErrSyntax] on its text, [parsePrimaryExpr] drops the error and returns
    the leaf of value 0. *)
Theorem non_ascii_literal_is_zero (l : Lexer) (r : rune)
    (ds rest : list rune) :
  buf (reader l) = (r :: ds) ++ rest ->
  255 < r ->
  forallb IsDigit (r :: ds) = true ->
  match rest with [] => True | x :: _ => IsDigit x = false end ->
  Atoi (string_of_runes (r :: ds)) = (0, Some ErrSyntax) /\
  exists p',
    parsePrimaryExpr l
    = Ok (IntegerLiteral 0 p', mkLexer p' (mkReader rest None)).
Proof.
  intros Hbuf Hr Hds Hrest.
  assert (Hatoi : Atoi (string_of_runes (r :: ds)) = (0, Some ErrSyntax)).
  { cbn [string_of_runes].
    destruct (string_of_rune_lead r ltac:(lia)) as (c & s & -> & Hc).
    cbn [append]. now apply Atoi_bad_lead. }
  split; [exact Hatoi |].
  unfold parsePrimaryExpr, Lex. rewrite Hbuf.
  destruct (LexLoop_at_digits [] (r :: ds) rest (pos l) eq_refl eq_refl
              Hds Hrest) as [p' E].
  cbn [app] in E. cbn [app]. rewrite E. cbn [bind Token_eqb].
  rewrite Hatoi. cbn [pos]. rewrite Position_eta. eauto.
Qed.

(** ** Positions of literals, and all the outcomes of the program *)


Lemma ast_ok_String (e : Expression) :
  ast_ok e = true ->
  exists s, Expression_String e = Ok s /\ Println e = s.
Proof.
  assert (H : forall e, ast_ok e = true -> exists s, Expression_String e = Ok s).
  { induction e0 as [l IHl op r IHr p | v p |]; cbn [ast_ok]; intros H.
    - apply andb_true_iff in H as [H Hr]. apply andb_true_iff in H as [_ Hl].
      destruct (IHl Hl) as [sl El]. destruct (IHr Hr) as [sr Er].
      cbn [Expression_String]. rewrite El, Er. cbn [bind]. eauto.
    - cbn [Expression_String]. eauto.
    - discriminate. }
  intros Hok. destruct (H e Hok) as [s E]. exists s. split; [exact E |].
  unfold Println. rewrite E. destruct e; try reflexivity. discriminate.
Qed.

(** X18.  All the outcomes of the program.  Either the parser dies and
    nothing is printed; or it returns a tree, the program prints the
    rendering of the tree, and then either prints the value of the tree and
    ends normally, or dies with [division by zero], the only error that the
    evaluation of a parsed tree can give, and prints no value. *)
Theorem main_outcomes (input : list rune) :
  (exists m, main input = Some (LogFatal [] m) /\ fatalMsg m) \/
  (exists e l' s,
     parseExpression (NewLexer input) = Some (Ok (e, l')) /\
     Expression_String e = Ok s /\
     ((exists v, evaluateExpression e = (v, None) /\
                 main input = Some (Exit0 [s; Itoa v])) \/
      (snd (evaluateExpression e) = Some "division by zero" /\
       main input = Some (LogFatal [s] "division by zero")))).
Proof.
  unfold main.
  pose proof (parseExpression_spec (NewLexer input)) as H.
  destruct (parseExpression (NewLexer input)) as [[[e l2] | m | m] |];
    cbn [addSubPost] in H; [| left; eauto | tauto | tauto].
  right. destruct H as (Hok & _).
  destruct (ast_ok_String e Hok) as (s & Es & ->).
  exists e, l2, s. split; [reflexivity |]. split; [exact Es |].
  pose proof (ArithTree_evaluate e (ast_ok_ArithTree e Hok)) as Hev.
  destruct (evaluateExpression e) as [v [err|]]; cbn [snd] in Hev.
  - right. destruct Hev as [Hev | Hev]; [discriminate |].
    injection Hev as ->. split; reflexivity.
  - left. exists v. split; reflexivity.
Qed.

End Program.

(** ** The theorems at concrete inputs *)

Lemma Digit_table_not_White_Space (r : rune) :
  Digit_table r = true -> White_Space_table r = false.
Proof.
  unfold Digit_table, White_Space_table. intros H.
  apply not_true_is_false. intros W.
  rewrite ?orb_true_iff, ?andb_true_iff, ?Z.leb_le, ?Z.eqb_eq in H, W.
  lia.
Qed.

Lemma lexInt_maximal_digit_run_witness :
  let l := NewLexer (runes "123+4") in
  buf (reader l) = (49 :: [50; 51]) ++ runes "+4" /\
  forallb (IsDigit Digit_table) (49 :: [50; 51]) = true /\
  IsDigit Digit_table 43 = false /\
  lexInt Digit_table l
    = Ok ("123", mkLexer (mkPosition 1 3) (mkReader (runes "+4") None)) /\
  Lex Digit_table White_Space_table l
    = Ok (INT, "123", mkLexer (mkPosition 1 3) (mkReader (runes "+4") None)).
Proof.
  intros l. split; [reflexivity |]. split; [reflexivity |].
  split; [reflexivity |].
  apply (lexInt_maximal_digit_run Digit_table White_Space_table
           Digit_table_not_White_Space l 49 [50; 51] (runes "+4"));
    reflexivity.
Defined.

Lemma parsePrimaryExpr_discards_Atoi_error_witness :
  let l := NewLexer (runes "99999999999999999999") in
  let l1 := mkLexer (mkPosition 1 20) (mkReader [] None) in
  let lit := "99999999999999999999" in
  Lex Digit_table White_Space_table l = Ok (INT, lit, l1) /\
  isDigits lit = true /\
  maxInt < decimal lit 0 /\
  parsePrimaryExpr Digit_table White_Space_table l
    = Ok (IntegerLiteral (fst (Atoi lit)) (pos l1), l1) /\
  snd (Atoi lit) = Some ErrRange /\
  parsePrimaryExpr Digit_table White_Space_table l
    = Ok (IntegerLiteral maxInt (pos l1), l1).
Proof.
  intros l l1 lit.
  split; [reflexivity |]. split; [reflexivity |]. split; [reflexivity |].
  destruct (parsePrimaryExpr_discards_Atoi_error Digit_table White_Space_table
              l l1 lit eq_refl) as [H1 H2].
  split; [exact H1 |]. apply H2; reflexivity.
Defined.

Lemma evaluate_divide_witness :
  let p := mkPosition 1 1 in
  let l := IntegerLiteral 7 p in
  let r := IntegerLiteral 2 p in
  evaluateExpression l = (7, None) /\
  evaluateExpression r = (2, None) /\
  evaluateExpression (BinaryExpression l DIV r p) = (wrap (Z.quot 7 2), None) /\
  wrap (Z.quot 7 2) = 3.
Proof.
  intros p l r. split; [reflexivity |]. split; [reflexivity |].
  destruct (evaluate_divide l r p 7 2 eq_refl eq_refl) as (H & _ & _).
  destruct (H ltac:(lia)) as [H1 _].
  split; [exact H1 | reflexivity].
Defined.

Lemma evaluate_short_circuit_witness :
  let p := mkPosition 1 1 in
  let l := BinaryExpression (IntegerLiteral 5 p) DIV (IntegerLiteral 0 p) p in
  let r := IntegerLiteral 1 p in
  evaluateExpression l = (0, Some "division by zero") /\
  evaluateExpression (BinaryExpression l ADD r p)
    = (0, Some "division by zero") /\
  fst (evaluateTraced (BinaryExpression l ADD r p))
    = [BinaryExpression l ADD r p; l; IntegerLiteral 5 p; IntegerLiteral 0 p].
Proof.
  intros p l r. split; [reflexivity |].
  destruct (evaluate_short_circuit l r ADD p 0 "division by zero" eq_refl)
    as (H1 & H2 & _).
  split; [exact H1 | exact H2].
Defined.

Lemma parser_trees_are_arithmetic_witness :
  let l := NewLexer (runes "1+2*3;") in
  let l' := mkLexer (mkPosition 1 5) (mkReader (runes ";") None) in
  let e :=
    BinaryExpression (IntegerLiteral 1 (mkPosition 1 1)) ADD
      (BinaryExpression (IntegerLiteral 2 (mkPosition 1 3)) MUL
         (IntegerLiteral 3 (mkPosition 1 5)) (mkPosition 1 3))
      (mkPosition 1 1) in
  parseExpression Digit_table White_Space_table l = Some (Ok (e, l')) /\
  ArithTree e /\
  snd (evaluateExpression e) <> Some "unknown operator" /\
  snd (evaluateExpression e) <> Some "unknown expression type".
Proof.
  intros l l' e. split; [reflexivity |].
  apply (parser_trees_are_arithmetic Digit_table White_Space_table l l' e).
  reflexivity.
Defined.

(** A literal of digits that are not ASCII: [Atoi] answers [ErrSyntax] and
    the value 0, the parser drops the error, and the program prints 0. *)
Example string_of_rune_arabic_three :
  string_of_rune 0x663 = String (byte 0xd9) (str1 (byte 0xa3)).
Proof. reflexivity. Qed.

Example main_arabic_three :
  main Digit_table White_Space_table [0x663; 59] = Some (Exit0 ["0"; "0"]).
Proof. reflexivity. Qed.

(** ** The further theorems at concrete inputs *)

Lemma Lex_backup_peek_witness :
  let l := NewLexer (runes "+1") in
  let l1 := mkLexer (mkPosition 1 1) (mkReader (runes "1") (Some 43)) in
  Lex Digit_table White_Space_table l = Ok (ADD, "+", l1) /\
  isArith ADD = true /\
  exists l2,
    backup l1 = Ok l2 /\
    Lex Digit_table White_Space_table l2 = Ok (ADD, "+", l1).
Proof.
  intros l l1. split; [reflexivity |]. split; [reflexivity |].
  apply (proj1 (Lex_backup_peek Digit_table White_Space_table l l1 ADD "+"
                  eq_refl)).
  left. reflexivity.
Defined.

Lemma main_unexpected_first_token_witness :
  firstToken Digit_table White_Space_table (runes " ") <> INT /\
  main Digit_table White_Space_table (runes " ")
  = Some (LogFatal [] "Unexpected token: EOF").
Proof.
  assert (H : firstToken Digit_table White_Space_table (runes " ") <> INT)
    by discriminate.
  split; [exact H |].
  exact (main_unexpected_first_token Digit_table White_Space_table
           (runes " ") H).
Defined.

Lemma parseExpression_stops_before_illegal_witness :
  let l := NewLexer (runes "1+2;x") in
  let l' := mkLexer (mkPosition 1 3) (mkReader (runes ";x") None) in
  let e :=
    BinaryExpression (IntegerLiteral 1 (mkPosition 1 1)) ADD
      (IntegerLiteral 2 (mkPosition 1 3)) (mkPosition 1 1) in
  parseExpression Digit_table White_Space_table l = Some (Ok (e, l')) /\
  lastRune (reader l') = None /\
  exists r rest,
    buf (reader l') = r :: rest /\
    legal Digit_table White_Space_table r = false /\
    In r (buf (reader l)) /\
    firstToken Digit_table White_Space_table (r :: rest) = ILLEGAL.
Proof.
  intros l l' e. split; [reflexivity |].
  apply (parseExpression_stops_before_illegal Digit_table White_Space_table
           l l' e).
  reflexivity.
Defined.

Lemma parseExpression_grammar_witness :
  let w := runes " " in
  let x : Sum :=
    (((runes "12", runes " "), []),
     [(43, runes " ",
       ((runes "3", runes " "), [(42, runes " ", (runes "4", runes " "))]));
      (45, runes " ", ((runes "5", []), []))]) in
  forallb (IsSpace White_Space_table) w = true /\
  sumOk Digit_table White_Space_table x = true /\
  legal Digit_table White_Space_table 59 = false /\
  w ++ sumText x ++ 59 :: runes "x" = runes " 12 + 3 * 4 - 5;x" /\
  main Digit_table White_Space_table (runes " 12 + 3 * 4 - 5;x")
  = Some (Exit0 ["((12 + (3 * 4)) - 5)"; "19"]).
Proof.
  intros w x. split; [reflexivity |]. split; [reflexivity |].
  split; [reflexivity |]. split; [reflexivity |].
  exact (proj2 (parseExpression_grammar Digit_table White_Space_table
                  Digit_table_not_White_Space w x 59 (runes "x")
                  eq_refl eq_refl eq_refl)).
Defined.

Lemma evaluate_wraps_exact_value_witness :
  let p := mkPosition 1 1 in
  let e :=
    BinaryExpression
      (BinaryExpression (IntegerLiteral maxInt p) ADD (IntegerLiteral 1 p) p)
      MUL (IntegerLiteral 3 p) p in
  divisionFree e = true /\
  exactValue e = 27670116110564327424 /\
  evaluateExpression e = (wrap 27670116110564327424, None) /\
  wrap 27670116110564327424 = minInt.
Proof.
  intros p e. split; [reflexivity |]. split; [reflexivity |].
  split; [exact (evaluate_wraps_exact_value e eq_refl) | reflexivity].
Defined.

Lemma positions_do_not_matter_witness :
  let e1 :=
    BinaryExpression (IntegerLiteral 1 (mkPosition 1 1)) ADD
      (IntegerLiteral 2 (mkPosition 1 3)) (mkPosition 1 1) in
  let e2 :=
    BinaryExpression (IntegerLiteral 1 (mkPosition 1 1)) ADD
      (IntegerLiteral 2 (mkPosition 2 1)) (mkPosition 1 1) in
  erase e1 = erase e2 /\
  Expression_String e1 = Expression_String e2 /\
  Println e1 = Println e2 /\
  evaluateExpression e1 = evaluateExpression e2.
Proof.
  intros e1 e2. split; [reflexivity |].
  exact (positions_do_not_matter e1 e2 eq_refl).
Defined.

Lemma literal_reads_back_witness :
  0 <= 42 <= maxInt /\
  legal Digit_table White_Space_table 59 = false /\
  main Digit_table White_Space_table (runes "42;") = Some (Exit0 ["42"; "42"]).
Proof.
  assert (H : 0 <= 42 <= maxInt) by (split; discriminate).
  split; [exact H |]. split; [reflexivity |].
  exact (proj2 (literal_reads_back Digit_table White_Space_table
                  Digit_table_not_White_Space 42 59 [] H eq_refl)).
Defined.

Lemma rendering_determines_tree_witness :
  let e1 :=
    BinaryExpression (IntegerLiteral 1 (mkPosition 1 1)) SUB
      (IntegerLiteral (-2) (mkPosition 1 3)) (mkPosition 1 1) in
  let e2 :=
    BinaryExpression (IntegerLiteral 1 (mkPosition 4 4)) SUB
      (IntegerLiteral (-2) (mkPosition 5 5)) (mkPosition 6 6) in
  Expression_String e1 = Ok "(1 - -2)" /\
  Expression_String e2 = Ok "(1 - -2)" /\
  erase e1 = erase e2.
Proof.
  intros e1 e2. split; [reflexivity |]. split; [reflexivity |].
  exact (rendering_determines_tree e1 e2 "(1 - -2)" eq_refl eq_refl).
Defined.

Lemma rendering_is_not_read_back_witness :
  let p := mkPosition 1 1 in
  Expression_String
    (BinaryExpression (IntegerLiteral 1 p) ADD (IntegerLiteral 2 p) p)
  = Ok "(1 + 2)" /\
  main Digit_table White_Space_table (runes "(1 + 2)" ++ [])
  = Some (LogFatal [] "Unexpected token: ILLEGAL") /\
  -5 < 0 /\
  main Digit_table White_Space_table (runes (Itoa (-5)) ++ [])
  = Some (LogFatal [] "Unexpected token: -").
Proof.
  intros p. split; [reflexivity |].
  destruct (rendering_is_not_read_back Digit_table White_Space_table)
    as [H1 H2].
  split; [exact (H1 (IntegerLiteral 1 p) ADD (IntegerLiteral 2 p) p
                   "(1 + 2)" [] eq_refl) |].
  split; [reflexivity |].
  exact (H2 (-5) [] eq_refl).
Defined.

Lemma parser_positions_witness :
  let l := NewLexer (runes "1+2*3;") in
  let l' := mkLexer (mkPosition 1 5) (mkReader (runes ";") None) in
  let e :=
    BinaryExpression (IntegerLiteral 1 (mkPosition 1 1)) ADD
      (BinaryExpression (IntegerLiteral 2 (mkPosition 1 3)) MUL
         (IntegerLiteral 3 (mkPosition 1 5)) (mkPosition 1 3))
      (mkPosition 1 1) in
  parseExpression Digit_table White_Space_table l = Some (Ok (e, l')) /\
  positionsOk e /\
  exists p, Pos e = Ok p /\ positionOf e = Some p.
Proof.
  intros l l' e. split; [reflexivity |].
  apply (parser_positions Digit_table White_Space_table l l' e).
  reflexivity.
Defined.

Lemma Lex_skips_white_space_witness :
  let ws := [32; 10; 9] in
  forallb (IsSpace White_Space_table) ws = true /\
  exists p',
    LexLoop Digit_table White_Space_table (ws ++ runes "+1") (mkPosition 1 0)
    = LexLoop Digit_table White_Space_table (runes "+1") p'.
Proof.
  intros ws. split; [reflexivity |].
  apply (Lex_skips_white_space Digit_table White_Space_table ws (runes "+1")).
  reflexivity.
Defined.

Lemma main_legal_input_dies_witness :
  forallb (legal Digit_table White_Space_table) (runes "1 + 2 * 3") = true /\
  exists m,
    main Digit_table White_Space_table (runes "1 + 2 * 3")
    = Some (LogFatal [] m) /\ fatalMsg m.
Proof.
  split; [reflexivity |].
  apply (main_legal_input_dies Digit_table White_Space_table).
  reflexivity.
Defined.

Lemma non_ascii_literal_is_zero_witness :
  let l := NewLexer [0x663; 0x664; 59] in
  buf (reader l) = (0x663 :: [0x664]) ++ [59] /\
  255 < 0x663 /\
  forallb (IsDigit Digit_table) (0x663 :: [0x664]) = true /\
  IsDigit Digit_table 59 = false /\
  Atoi (string_of_runes (0x663 :: [0x664])) = (0, Some ErrSyntax) /\
  exists p',
    parsePrimaryExpr Digit_table White_Space_table l
    = Ok (IntegerLiteral 0 p', mkLexer p' (mkReader [59] None)).
Proof.
  intros l. split; [reflexivity |]. split; [reflexivity |].
  split; [reflexivity |]. split; [reflexivity |].
  apply (non_ascii_literal_is_zero Digit_table White_Space_table
           Digit_table_not_White_Space l 0x663 [0x664] [59]);
    reflexivity.
Defined.

